(** * cli/cppcheckexecutor.cpp: the command-line execution driver of Cppcheck

    A shallow embedding of [CppCheckExecutor] (file-set preparation, the
    sequential/parallel dispatch of [check_internal], the diagnostic sink
    and the POSIX fault handler), and the properties of it that the design
    document states.

    Conventions.
    - Output streams are not values of the program; every write is recorded,
      in order, in the [trace] of the run, together with the calls made into
      the analysis engine.
    - [std::set<std::string>] is a [gset string]; [std::map<std::string,
      std::size_t>] is the list of its entries in iteration order, that is
      in ascending key order.
    - [unsigned int] and [std::size_t] are [Z] and [N] with the wrap-around
      written out.
    - Code that lives in other translation units (the command-line parser,
      the engine, the renderer of [ErrorLogger::ErrorMessage], the path
      helpers, the C runtime) is taken through interfaces. *)

From Stdlib Require Import ZArith NArith List String Ascii Bool Lia.
From Stdlib Require Import DecimalString HexadecimalString QArith Sorted Permutation OrderedTypeEx.
From stdpp Require Import base decidable gmap sets strings.

Import ListNotations.
Local Open Scope string_scope.
Local Open Scope Z_scope.

(** ** Numbers and text *)

Definition UINT_MODULUS : Z := 2 ^ 32.

(** [unsigned int] addition. *)
Definition uint_add (a b : Z) : Z := (a + b) mod UINT_MODULUS.

(** [operator<<] on an unsigned or a signed integer: decimal digits. *)
Definition string_of_N (n : N) : string :=
  DecimalString.NilZero.string_of_uint (N.to_uint n).
Definition string_of_Z (z : Z) : string :=
  DecimalString.NilZero.string_of_int (Z.to_int z).

Definition newline : string := String (ascii_of_nat 10) EmptyString.
Definition quote : string := String (ascii_of_nat 34) EmptyString.

(** ** Diagnostics (errorlogger.h) *)

Module Severity.
Inductive SeverityType :=
| none | error | warning | style | performance | portability | information | debug.
End Severity.

Record FileLocation := { loc_file : string; loc_line : Z }.

(** [ErrorLogger::ErrorMessage], built at lines 600 and 663 with the
    constructor [(callStack, severity, msg, id, inconclusive)]. *)
Record ErrorMessage := {
  _callStack : list FileLocation;
  _severity : Severity.SeverityType;
  _msg : string;
  _id : string;
  _inconclusive : bool
}.

(** The renderer of [ErrorMessage] is defined in errorlogger.cpp. *)
Class Renderer := {
  getXMLHeader : Z -> string;
  getXMLFooter : Z -> string;
  toXML : ErrorMessage -> bool -> Z -> string;
  toString : ErrorMessage -> bool -> string -> string
}.

(** ** Settings (settings.h): the members this file reads *)

Record Settings := {
  _xml : bool;
  _xml_version : Z;
  _jobs : Z;
  _errorsOnly : bool;
  _exitCode : Z;
  _verbose : bool;
  _outputFormat : string;
  reportProgress_enabled : bool;
  checkConfiguration : bool;
  exceptionHandling : bool;
  standards_posix : bool;
  isEnabled : string -> bool;
  _includePaths : list string;
  terminated : bool;
  (* settings.library *)
  markupFile : string -> bool;
  processMarkupAfterCode : string -> bool;
  markupExtensions : list string
}.

(** ** The observable history of a run *)

Inductive event :=
| Cerr (text : string)                 (* std::cerr << text << std::endl *)
| Cout (text : string)                 (* std::cout << text << std::endl *)
| Analyze (path : string) (found : Z)  (* cppcheck.check(path) returned found *)
| FunctionUsage                        (* cppcheck.checkFunctionUsage() *)
| TooManyConfigs                       (* cppcheck.tooManyConfigsError *)
| RunAll (found : Z)                   (* ThreadExecutor::check() returned found *)
| CoutNoEndl (text : string).          (* std::cout << text *)

Definition cerr_text (e : event) : option string :=
  match e with Cerr t => Some t | _ => None end.
Definition cout_text (e : event) : option string :=
  match e with Cout t => Some t | _ => None end.
Definition analyzed_path (e : event) : option string :=
  match e with Analyze p _ => Some p | _ => None end.

(** What was written to each stream, and which files were analysed, in order. *)
Definition cerr_lines (tr : list event) : list string := omap cerr_text tr.
Definition cout_lines (tr : list event) : list string := omap cout_text tr.
Definition analyzed (tr : list event) : list string := omap analyzed_path tr.

(** ** The executor object *)

(** [_files] holds the entries of the [std::map] in iteration order. *)
Record CppCheckExecutor := {
  _errorList : gset string;
  time1 : Z;
  errorlist : bool;
  _files : list (string * N);
  trace : list event
}.

(** The constructor (lines 49-52). *)
Definition new_executor : CppCheckExecutor :=
  {| _errorList := ∅; time1 := 0; errorlist := false; _files := []; trace := [] |}.

Definition emit (e : event) (x : CppCheckExecutor) : CppCheckExecutor :=
  {| _errorList := _errorList x; time1 := time1 x; errorlist := errorlist x;
     _files := _files x; trace := trace x ++ [e] |}.

Definition errorList_insert (errmsg : string) (x : CppCheckExecutor) : CppCheckExecutor :=
  {| _errorList := {[errmsg]} ∪ _errorList x; time1 := time1 x;
     errorlist := errorlist x; _files := _files x; trace := trace x |}.

Definition set_time1 (t : Z) (x : CppCheckExecutor) : CppCheckExecutor :=
  {| _errorList := _errorList x; time1 := t; errorlist := errorlist x;
     _files := _files x; trace := trace x |}.

Definition set_errorlist (b : bool) (x : CppCheckExecutor) : CppCheckExecutor :=
  {| _errorList := _errorList x; time1 := time1 x; errorlist := b;
     _files := _files x; trace := trace x |}.

Definition set_files (fs : list (string * N)) (x : CppCheckExecutor) : CppCheckExecutor :=
  {| _errorList := _errorList x; time1 := time1 x; errorlist := errorlist x;
     _files := fs; trace := trace x |}.

(** ** The diagnostic sink (lines 688-752) *)

(** [reportErr(const std::string &)], lines 688-696. *)
Definition reportErr_string (errmsg : string) (x : CppCheckExecutor) : CppCheckExecutor :=
  if bool_decide (errmsg ∈ _errorList x) then x
  else emit (Cerr errmsg) (errorList_insert errmsg x).

(** [reportOut], lines 698-701. *)
Definition reportOut (outmsg : string) (x : CppCheckExecutor) : CppCheckExecutor :=
  emit (Cout outmsg) x.

(** [reportProgress], lines 703-724; [time2] is what [std::time(NULL)]
    returns when the call is made. *)
Definition reportProgress (filename stage : string) (value : N) (time2 : Z)
    (x : CppCheckExecutor) : CppCheckExecutor :=
  if time1 x =? 0 then x
  else if time1 x + 10 <=? time2 then
    reportOut ("progress: " ++ stage ++ " " ++ string_of_N value ++ "%")
              (set_time1 time2 x)
  else x.

(** *** [reportStatus], lines 731-741 *)

(** [long double] arithmetic belongs to the platform. *)
Class LongDouble := {
  long_double : Type;
  ld_of_size : N -> long_double;      (* conversion from std::size_t *)
  ld_of_int : Z -> long_double;       (* conversion from int *)
  ld_div : long_double -> long_double -> long_double;
  ld_mul : long_double -> long_double -> long_double;
  ld_to_long : long_double -> Z       (* static_cast<long> *)
}.

Inductive arith_fault := DivisionByZero.

Section Status.
Context `{LongDouble}.

(** The operand of [<<] at line 737. *)
Definition percent_done (sizedone sizetotal : N) : Z :=
  if (0 <? sizetotal)%N then
    ld_to_long (ld_mul (ld_div (ld_of_size sizedone) (ld_of_size sizetotal))
                       (ld_of_int 100))
  else 0.

(** The same expression, evaluated with a division that faults on a zero
    divisor. *)
Definition ld_div_checked (a : long_double) (divisor : N)
    : arith_fault + long_double :=
  if (divisor =? 0)%N then inl DivisionByZero
  else inr (ld_div a (ld_of_size divisor)).

Definition percent_done_checked (sizedone sizetotal : N) : arith_fault + Z :=
  if (0 <? sizetotal)%N then
    match ld_div_checked (ld_of_size sizedone) sizetotal with
    | inl f => inl f
    | inr q => inr (ld_to_long (ld_mul q (ld_of_int 100)))
    end
  else inr 0.

Definition status_text (fileindex filecount : N) (percent : Z) : string :=
  string_of_N fileindex ++ "/" ++ string_of_N filecount
    ++ " files checked " ++ string_of_Z percent ++ "% done".

Definition reportStatus (fileindex filecount sizedone sizetotal : N)
    (x : CppCheckExecutor) : CppCheckExecutor :=
  if (1 <? filecount)%N then
    emit (Cout (status_text fileindex filecount (percent_done sizedone sizetotal))) x
  else x.

Definition reportStatus_checked (fileindex filecount sizedone sizetotal : N)
    (x : CppCheckExecutor) : arith_fault + CppCheckExecutor :=
  if (1 <? filecount)%N then
    match percent_done_checked sizedone sizetotal with
    | inl f => inl f
    | inr p => inr (emit (Cout (status_text fileindex filecount p)) x)
    end
  else inr x.
End Status.

(** *** Reporting an [ErrorMessage] *)

Section Sink.
Context `{Renderer}.

(** [reportErr(const ErrorLogger::ErrorMessage &)], lines 743-752.
    [_settings] points to the settings of the run whenever the engine or
    [check_internal] reports. *)
Definition reportErr (settings : Settings) (msg : ErrorMessage)
    (x : CppCheckExecutor) : CppCheckExecutor :=
  if errorlist x then
    reportOut (toXML msg false (_xml_version settings)) x
  else if _xml settings then
    reportErr_string (toXML msg (_verbose settings) (_xml_version settings)) x
  else
    reportErr_string (toString msg (_verbose settings) (_outputFormat settings)) x.

(** [reportInfo], lines 726-729. *)
Definition reportInfo (settings : Settings) (msg : ErrorMessage)
    (x : CppCheckExecutor) : CppCheckExecutor :=
  reportErr settings msg x.
End Sink.

(** ** Collaborators of the dispatcher *)

(** A call made on the executor through the [ErrorLogger] interface (or, for
    [reportStatus], by the parallel executor). *)
Inductive callback :=
| call_reportOut (outmsg : string)
| call_reportErr (msg : ErrorMessage)
| call_reportProgress (filename stage : string) (value : N) (time2 : Z)
| call_reportInfo (msg : ErrorMessage)
| call_reportStatus (fileindex filecount sizedone sizetotal : N).

(** The analysis engine ([CppCheck], [Library], [Preprocessor], the
    suppressions) and the parallel executor ([ThreadExecutor]).  Each call
    returns the calls it made on the logger, its result and the new state. *)
Class Engine := {
  engine : Type;
  cppcheck_version : string;
  cppcheck_extraVersion : string;
  cppcheck_getErrorMessages : engine -> list callback * engine;
  library_load : string -> engine -> bool * engine;
  cppcheck_check : string -> engine -> list callback * Z * engine;
  cppcheck_checkFunctionUsage : engine -> list callback * engine;
  cppcheck_tooManyConfigsError : engine -> list callback * engine;
  unmatchedGlobalSuppressions : engine -> list ErrorMessage;
  missingIncludeFlag : engine -> bool;
  missingSystemIncludeFlag : engine -> bool;
  ThreadExecutor_check : list (string * N) -> engine -> list callback * Z * engine
}.

(** What the build and the host decide. *)
Class Platform := {
  SIZE_MODULUS : N;                    (* SIZE_MAX + 1 *)
  sizeof_long : Z;
  defined_WIN32 : bool;                (* _WIN32 *)
  CFGDIR : option string;              (* the macro, when defined *)
  cfgfolder : string;                  (* line 595, from argv[0] *)
  ThreadExecutor_isEnabled : bool
}.

Definition EXIT_SUCCESS : Z := 0.
Definition EXIT_FAILURE : Z := 1.

(** ** The execution dispatcher: [check_internal], lines 578-686 *)

Section Dispatcher.
Context `{Renderer} `{LongDouble} `{Engine} `{Platform}.

(** The engine calls back into the executor while it runs. *)
Definition deliver (settings : Settings) (cb : callback) (x : CppCheckExecutor)
    : CppCheckExecutor :=
  match cb with
  | call_reportOut outmsg => reportOut outmsg x
  | call_reportErr msg => reportErr settings msg x
  | call_reportProgress filename stage value time2 =>
      reportProgress filename stage value time2 x
  | call_reportInfo msg => reportInfo settings msg x
  | call_reportStatus fileindex filecount sizedone sizetotal =>
      reportStatus fileindex filecount sizedone sizetotal x
  end.

Definition deliver_all (settings : Settings) (cbs : list callback)
    (x : CppCheckExecutor) : CppCheckExecutor :=
  fold_left (fun x' cb => deliver settings cb x') cbs x.

(** The locals of the dispatch, the engine and the executor. *)
Record dispatch_state := {
  returnValue : Z;          (* unsigned int *)
  processedsize : N;        (* std::size_t *)
  c : Z;                    (* unsigned int *)
  eng : engine;
  exec : CppCheckExecutor
}.

(** Lines 616-619. *)
Definition totalfilesize_of (files : list (string * N)) : N :=
  fold_left (fun acc f => ((acc + snd f) mod SIZE_MODULUS)%N) files 0%N.

(** The body shared by the two loops: lines 626-630 and 638-642. *)
Definition check_file (settings : Settings) (filecount totalfilesize : N)
    (f : string * N) (st : dispatch_state) : dispatch_state :=
  let '(cbs, found, e') := cppcheck_check (fst f) (eng st) in
  let x1 := deliver_all settings cbs (emit (Analyze (fst f) found) (exec st)) in
  let processed := ((processedsize st + snd f) mod SIZE_MODULUS)%N in
  let x2 := if negb (_errorsOnly settings)
            then reportStatus (Z.to_N (uint_add (c st) 1)) filecount
                              processed totalfilesize x1
            else x1 in
  {| returnValue := uint_add (returnValue st) found;
     processedsize := processed;
     c := uint_add (c st) 1;
     eng := e';
     exec := x2 |}.

(** Line 624: the first loop takes a file unless it is markup that is to be
    processed after the code; line 637: the second loop takes the rest. *)
Definition first_pass (settings : Settings) (path : string) : bool :=
  negb (markupFile settings path) || negb (processMarkupAfterCode settings path).
Definition second_pass (settings : Settings) (path : string) : bool :=
  markupFile settings path && processMarkupAfterCode settings path.

(** One loop over [_files], in iteration order. *)
Fixpoint check_loop (settings : Settings) (sel : string -> bool)
    (filecount totalfilesize : N) (files : list (string * N))
    (st : dispatch_state) : dispatch_state :=
  match files with
  | [] => st
  | f :: rest =>
      check_loop settings sel filecount totalfilesize rest
        (if sel (fst f) then check_file settings filecount totalfilesize f st
         else st)
  end.

Definition with_exec (x : CppCheckExecutor) (st : dispatch_state) : dispatch_state :=
  {| returnValue := returnValue st; processedsize := processedsize st;
     c := c st; eng := eng st; exec := x |}.

(** Lines 612-653. *)
Definition dispatch (settings : Settings) (e : engine) (x : CppCheckExecutor)
    : dispatch_state :=
  let st0 := {| returnValue := 0; processedsize := 0%N; c := 0; eng := e; exec := x |} in
  if _jobs settings =? 1 then
    let files := _files x in
    let filecount := N.of_nat (length files) in
    let totalfilesize := totalfilesize_of files in
    let st1 := check_loop settings (first_pass settings) filecount totalfilesize files st0 in
    let st2 := check_loop settings (second_pass settings) filecount totalfilesize files st1 in
    let '(cbs, e') := cppcheck_checkFunctionUsage (eng st2) in
    {| returnValue := returnValue st2; processedsize := processedsize st2;
       c := c st2; eng := e';
       exec := deliver_all settings cbs (emit FunctionUsage (exec st2)) |}
  else if negb ThreadExecutor_isEnabled then
    with_exec (emit (Cout "No thread support yet implemented for this platform.") x) st0
  else
    let '(cbs, found, e') := ThreadExecutor_check (_files x) e in
    {| returnValue := found mod UINT_MODULUS; processedsize := 0%N; c := 0; eng := e';
       exec := deliver_all settings cbs (emit (RunAll found) x) |}.

(** The message of lines 588-600. *)
Definition failedToLoadCfg (std : bool) : ErrorMessage :=
  let msg := "Failed to load " ++ (if negb std then "std.cfg" else "posix.cfg")
             ++ ". Your Cppcheck installation is broken, please re-install." in
  let details :=
    match CFGDIR with
    | Some dir =>
        "The Cppcheck binary was compiled with CFGDIR set to " ++ quote ++ dir
        ++ quote ++ " and will therefore search for std.cfg in that path."
    | None =>
        "The Cppcheck binary was compiled without CFGDIR set. Either the "
        ++ "std.cfg should be available in " ++ cfgfolder
        ++ " or the CFGDIR should be configured."
    end in
  {| _callStack := []; _severity := Severity.information;
     _msg := msg ++ " " ++ details; _id := "failedToLoadCfg";
     _inconclusive := false |}.

(** The message of lines 662-672. *)
Definition missingIncludeMessage (e : engine) : ErrorMessage :=
  {| _callStack := []; _severity := Severity.information;
     _msg := "Cppcheck cannot find all the include files (use --check-config for details)"
             ++ newline
             ++ "Cppcheck cannot find all the include files. Cppcheck can check the code without the "
             ++ "include files found. But the results will probably be more accurate if all the include "
             ++ "files are found. Please check your project's include directories and add all of them "
             ++ "as include directories for Cppcheck. To see what files Cppcheck cannot find use "
             ++ "--check-config.";
     _id := if missingIncludeFlag e then "missingInclude" else "missingIncludeSystem";
     _inconclusive := false |}.

(** Lines 582-585: both configuration files are loaded before the test. *)
Definition load_configuration (settings : Settings) (e : engine)
    : bool * bool * engine :=
  let '(std, e1) := library_load "std.cfg" e in
  if standards_posix settings then
    let '(posix, e2) := library_load "posix.cfg" e1 in (std, posix, e2)
  else (std, true, e1).

(** Lines 655-675. *)
Definition after_dispatch (settings : Settings) (st : dispatch_state)
    : dispatch_state :=
  let x1 := if isEnabled settings "information" || checkConfiguration settings
            then fold_left (fun x' msg => reportErr settings msg x')
                           (unmatchedGlobalSuppressions (eng st)) (exec st)
            else exec st in
  if negb (checkConfiguration settings) then
    let '(cbs, e') := cppcheck_tooManyConfigsError (eng st) in
    let x2 := deliver_all settings cbs (emit TooManyConfigs x1) in
    let x3 := if isEnabled settings "missingInclude"
                 && (missingIncludeFlag e' || missingSystemIncludeFlag e')
              then reportInfo settings (missingIncludeMessage e') x2
              else x2 in
    {| returnValue := returnValue st; processedsize := processedsize st;
       c := c st; eng := e'; exec := x3 |}
  else with_exec x1 st.

(** Lines 605-610; [now] is what [std::time(0)] returns at line 606. *)
Definition before_dispatch (settings : Settings) (now : Z)
    (x : CppCheckExecutor) : CppCheckExecutor :=
  let x1 := if reportProgress_enabled settings then set_time1 now x else x in
  if _xml settings
  then reportErr_string (getXMLHeader (_xml_version settings)) x1
  else x1.

(** Lines 605-679, once the configuration is loaded. *)
Definition run_checks (settings : Settings) (now : Z) (e : engine)
    (x : CppCheckExecutor) : dispatch_state :=
  let st := after_dispatch settings
              (dispatch settings e (before_dispatch settings now x)) in
  if _xml settings
  then with_exec (reportErr_string (getXMLFooter (_xml_version settings)) (exec st)) st
  else st.

(** [check_internal]: the exit status, the engine and the executor it leaves. *)
Definition check_internal (settings : Settings) (now : Z) (e : engine)
    (x : CppCheckExecutor) : Z * engine * CppCheckExecutor :=
  let '(std, posix, e1) := load_configuration settings e in
  if negb std || negb posix then
    (EXIT_FAILURE, e1, reportErr settings (failedToLoadCfg std) x)
  else
    let st := run_checks settings now e1 x in
    (if returnValue st =? 0 then 0 else _exitCode settings, eng st, exec st).

End Dispatcher.

(** ** The file-set preparer: [parseFromArgs], lines 58-160 *)

(** What [CmdLineParser] (cmdlineparser.cpp) hands back after it has filled
    the settings. *)
Record CmdLineParser := {
  ParseFromArgs : bool;
  GetShowVersion : bool;
  GetShowErrorMessages : bool;
  ExitAfterPrinting : bool;
  GetPathNames : list string;
  GetIgnoredPaths : list string
}.

(** [Path], [FileLister] and the per-mask test of [PathMatch] (path.cpp,
    filelister.cpp, pathmatch.cpp). *)
Class PathServices := {
  toNativeSeparators : string -> string;
  isDirectory : string -> bool;
  getFilenameExtension : string -> string;
  (* the files, with their sizes, that the traversal of a root finds *)
  expand : string -> list string -> list (string * N);
  (* does a path match one mask, case-sensitively or not *)
  mask_matches : bool -> string -> string -> bool
}.

(** *** [std::map<std::string, std::size_t>] *)

(** [m[k] = v] on the entries in ascending key order. *)
Fixpoint map_assign (k : string) (v : N) (m : list (string * N))
    : list (string * N) :=
  match m with
  | [] => [(k, v)]
  | (k', v') :: rest =>
      match String.compare k k' with
      | Lt => (k, v) :: (k', v') :: rest
      | Eq => (k, v) :: rest
      | Gt => (k', v') :: map_assign k v rest
      end
  end.

Definition keys (m : list (string * N)) : list string := map fst m.

Section Preparer.
Context `{Renderer} `{LongDouble} `{Engine} `{Platform} `{PathServices}.

(** Modelled from the spec: [FileLister::recursiveAddFiles] (filelister.cpp
    is not part of the sources): the root is expanded recursively into
    concrete files, and each one is entered in the map under its path. *)
Definition recursiveAddFiles (files : list (string * N)) (path : string)
    (extra : list string) : list (string * N) :=
  fold_left (fun m f => map_assign (fst f) (snd f) m) (expand path extra) files.

(** Modelled from the spec: [PathMatch::Match] (pathmatch.cpp is not part of
    the sources): does this path match any exclusion rule. *)
Definition PathMatch_Match (masks : list string) (caseSensitive : bool)
    (path : string) : bool :=
  existsb (fun mask => mask_matches caseSensitive mask path) masks.

(** Lines 90-106: the include paths that are directories are kept, the
    others are reported (unless quiet) and erased. *)
Fixpoint check_includePaths (errorsOnly : bool) (paths : list string)
    (x : CppCheckExecutor) : list string * CppCheckExecutor :=
  match paths with
  | [] => ([], x)
  | p :: rest =>
      let path := toNativeSeparators p in
      if isDirectory path then
        let '(kept, x') := check_includePaths errorsOnly rest x in (p :: kept, x')
      else
        check_includePaths errorsOnly rest
          (if negb errorsOnly
           then emit (Cout ("cppcheck: warning: Couldn't find path given by -I '"
                            ++ path ++ "'")) x
           else x)
  end.

(** Lines 110-115. *)
Definition add_pathnames (settings : Settings) (pathnames : list string)
    (files : list (string * N)) : list (string * N) :=
  fold_left (fun m p => recursiveAddFiles m (toNativeSeparators p)
                                          (markupExtensions settings))
            pathnames files.

(** The test of line 125. *)
Definition is_header_extension (extension : string) : bool :=
  String.eqb extension ".h" || String.eqb extension ".hpp".

(** Lines 121-130: the loop over the local copy [ignored]; it yields what is
    left of the copy, and [warn]. *)
Fixpoint strip_header_rules (ignored : list string) : list string * bool :=
  match ignored with
  | [] => ([], false)
  | i :: rest =>
      let extension := getFilenameExtension i in
      let '(kept, warn) := strip_header_rules rest in
      if is_header_extension extension
      then (kept, true)
      else (i :: kept, warn)
  end.

(** Lines 136-141. *)
Definition caseSensitive : bool := negb defined_WIN32.

(** Lines 143-148: erase the entries that the matcher matches. *)
Definition erase_matching (masks : list string) (files : list (string * N))
    : list (string * N) :=
  List.filter (fun f => negb (PathMatch_Match masks caseSensitive (fst f))) files.

(** Lines 132-133. *)
Definition header_warning : list event :=
  [ Cout "cppcheck: filename exclusion does not apply to header (.h and .hpp) files.";
    Cout "cppcheck: Please use --suppress for ignoring results from the header files." ].

Definition emit_all (es : list event) (x : CppCheckExecutor) : CppCheckExecutor :=
  fold_left (fun x' e => emit e x') es x.

(** Lines 117-159, on a non-empty or empty [_files].  The matcher of line
    142 is built from [parser.GetIgnoredPaths()], not from [ignored]. *)
Definition apply_exclusions (parser : CmdLineParser) (x : CppCheckExecutor)
    : bool * CppCheckExecutor :=
  match _files x with
  | _ :: _ =>
      let '(ignored, warn) := strip_header_rules (GetIgnoredPaths parser) in
      let x1 := if warn then emit_all header_warning x else x in
      let x2 := set_files (erase_matching (GetIgnoredPaths parser) (_files x1)) x1 in
      match _files x2 with
      | _ :: _ => (true, x2)
      | [] => (false, emit (Cout "cppcheck: error: no files to check - all paths ignored.") x2)
      end
  | [] =>
      (false, emit (Cout "cppcheck: error: could not find or open any of the paths given.") x)
  end.

Definition set_includePaths (paths : list string) (s : Settings) : Settings :=
  {| _xml := _xml s; _xml_version := _xml_version s; _jobs := _jobs s;
     _errorsOnly := _errorsOnly s; _exitCode := _exitCode s;
     _verbose := _verbose s; _outputFormat := _outputFormat s;
     reportProgress_enabled := reportProgress_enabled s;
     checkConfiguration := checkConfiguration s;
     exceptionHandling := exceptionHandling s;
     standards_posix := standards_posix s; isEnabled := isEnabled s;
     _includePaths := paths; terminated := terminated s;
     markupFile := markupFile s;
     processMarkupAfterCode := processMarkupAfterCode s;
     markupExtensions := markupExtensions s |}.

Definition terminate (s : Settings) : Settings :=
  {| _xml := _xml s; _xml_version := _xml_version s; _jobs := _jobs s;
     _errorsOnly := _errorsOnly s; _exitCode := _exitCode s;
     _verbose := _verbose s; _outputFormat := _outputFormat s;
     reportProgress_enabled := reportProgress_enabled s;
     checkConfiguration := checkConfiguration s;
     exceptionHandling := exceptionHandling s;
     standards_posix := standards_posix s; isEnabled := isEnabled s;
     _includePaths := _includePaths s; terminated := true;
     markupFile := markupFile s;
     processMarkupAfterCode := processMarkupAfterCode s;
     markupExtensions := markupExtensions s |}.

(** Lines 65-79. *)
Definition print_version_and_errorlist (parser : CmdLineParser)
    (settings : Settings) (e : engine) (x : CppCheckExecutor)
    : engine * CppCheckExecutor :=
  let x1 :=
    if GetShowVersion parser && negb (GetShowErrorMessages parser) then
      if negb (String.eqb cppcheck_extraVersion EmptyString)
      then emit (Cout ("Cppcheck " ++ cppcheck_version ++ " ("
                       ++ cppcheck_extraVersion ++ ")")) x
      else emit (Cout ("Cppcheck " ++ cppcheck_version)) x
    else x in
  if GetShowErrorMessages parser then
    let x2 := emit (CoutNoEndl (getXMLHeader (_xml_version settings)))
                   (set_errorlist true x1) in
    let '(cbs, e') := cppcheck_getErrorMessages e in
    (e', emit (Cout (getXMLFooter (_xml_version settings)))
              (deliver_all settings cbs x2))
  else (e, x1).

(** [parseFromArgs]; [settings] are the settings as the parser left them. *)
Definition parseFromArgs (parser : CmdLineParser) (settings : Settings)
    (e : engine) (x : CppCheckExecutor)
    : bool * Settings * engine * CppCheckExecutor :=
  if ParseFromArgs parser then
    let '(e1, x1) := print_version_and_errorlist parser settings e x in
    if ExitAfterPrinting parser then (true, terminate settings, e1, x1)
    else
      let '(kept, x2) := check_includePaths (_errorsOnly settings)
                                            (_includePaths settings) x1 in
      let settings' := set_includePaths kept settings in
      let x3 := set_files (add_pathnames settings' (GetPathNames parser) (_files x2)) x2 in
      let '(ok, x4) := apply_exclusions parser x3 in
      (ok, settings', e1, x4)
  else (false, settings, e, x).

(** [check], lines 162-184, for a run in which no fault is raised:
    [check_wrapper] (lines 550-573) then installs the interception and
    returns what [check_internal] returns. *)
Definition check (parser : CmdLineParser) (settings : Settings) (now : Z)
    (e : engine) (x : CppCheckExecutor) : Z * engine * CppCheckExecutor :=
  let '(ok, settings', e1, x1) := parseFromArgs parser settings e x in
  if negb ok then (EXIT_FAILURE, e1, x1)
  else if terminated settings' then (EXIT_SUCCESS, e1, x1)
  else check_internal settings' now e1 x1.

End Preparer.

(** ** The fault interception layer, lines 35-47 and 186-423 *)

(** The macros that are defined when the translation unit is compiled,
    other than by the [#define] lines of this file: by the compiler, on its
    command line, or by a header. *)
Definition macros := string -> bool.

(** Lines 35-36 and 43-44: the two macros that this file defines. *)
Definition USE_UNIX_SIGNAL_HANDLING (predefined : macros) : bool :=
  negb (predefined "NO_UNIX_SIGNAL_HANDLING") && predefined "__GNUC__"
  && negb (predefined "__MINGW32__") && negb (predefined "__CYGWIN__")
  && negb (predefined "__OS2__") && negb (predefined "__SVR4").

Definition USE_WINDOWS_SEH (predefined : macros) : bool := predefined "_MSC_VER".

(** [defined(name)] at the point where [print_stacktrace] is compiled. *)
Definition defined (predefined : macros) (name : string) : bool :=
  predefined name
  || (String.eqb name "USE_UNIX_SIGNAL_HANDLING" && USE_UNIX_SIGNAL_HANDLING predefined)
  || (String.eqb name "USE_WINDOWS_SEH" && USE_WINDOWS_SEH predefined)
  || (USE_UNIX_SIGNAL_HANDLING predefined
      && (String.eqb name "DECLARE_SIGNAL" || String.eqb name "ADDRESSDISPLAYLENGTH")).

Inductive FILE := stdout | stderr.

(** [<signal.h>], [<execinfo.h>], [<cxxabi.h>] and [<cstring>]. *)
Class Runtime := {
  SIGBUS : Z; SIGFPE : Z; SIGILL : Z; SIGINT : Z; SIGSEGV : Z;
  BUS_ADRALN : Z; BUS_ADRERR : Z; BUS_OBJERR : Z;
  BUS_MCEERR_AR : option Z; BUS_MCEERR_AO : option Z;
  FPE_INTDIV : Z; FPE_INTOVF : Z; FPE_FLTDIV : Z; FPE_FLTOVF : Z;
  FPE_FLTUND : Z; FPE_FLTRES : Z; FPE_FLTINV : Z; FPE_FLTSUB : Z;
  ILL_ILLOPC : Z; ILL_ILLOPN : Z; ILL_ILLADR : Z; ILL_ILLTRP : Z;
  ILL_PRVOPC : Z; ILL_PRVREG : Z; ILL_COPROC : Z; ILL_BADSTK : Z;
  SEGV_MAPERR : Z; SEGV_ACCERR : Z;
  strsignal : Z -> string;
  format_pointer : Z -> string;                       (* printf's %p *)
  backtrace_symbols : list Z -> option (list string); (* NULL when malloc fails *)
  cxa_demangle : string -> option string              (* NULL on failure *)
}.

Record siginfo_t := { si_code : Z; si_addr : Z }.

(** A [switch]: the first label equal to the value, else the default. *)
Fixpoint switch {A : Type} (v : Z) (cases : list (Z * A)) (default : A) : A :=
  match cases with
  | [] => default
  | (label, body) :: rest => if v =? label then body else switch v rest default
  end.

(** [strchr(s + from, ch)] as an index into [s]; [None] is the null pointer. *)
Fixpoint strchr_from (s : string) (from : nat) (ch : ascii) : option nat :=
  match s with
  | EmptyString => None
  | String a rest =>
      match from with
      | O => if Ascii.eqb a ch then Some O
             else option_map S (strchr_from rest O ch)
      | S from' => option_map S (strchr_from rest from' ch)
      end
  end.

(** [printf("%.*s", precision, s + start)]; a negative precision counts as
    omitted; [None] when [s + start] lies beyond the terminator. *)
Definition print_precision (precision : Z) (s : string) (start : nat)
    : option string :=
  if (String.length s <? start)%nat then None
  else if precision <? 0 then Some (substring start (String.length s - start) s)
  else Some (substring start (Z.to_nat precision) s).

(** [printf("%-2d", n)]. *)
Definition print_left2 (n : Z) : string :=
  let digits := string_of_Z n in
  if (String.length digits <? 2)%nat then digits ++ " " else digits.

Fixpoint zeros (n : nat) : string :=
  match n with O => EmptyString | S n' => String "0" (zeros n') end.

Section FaultHandler.
Context `{Runtime} `{Platform}.

(** Lines 197-205. *)
Definition listofsignals : list (Z * string) :=
  [ (SIGBUS, "SIGBUS"); (SIGFPE, "SIGFPE"); (SIGILL, "SIGILL");
    (SIGINT, "SIGINT"); (SIGSEGV, "SIGSEGV") ].

(** Lines 220-227. *)
Definition signal_name (signo : Z) : string :=
  switch signo listofsignals EmptyString.

(** Line 231. *)
Definition ADDRESSDISPLAYLENGTH : Z := if sizeof_long =? 8 then 12 else 8.

(** Lines 256-266: the demangled name, [None] for the null pointer; the
    outer [None] stands for a copy that does not fit [input_buffer]. *)
Definition demangle_frame (demangling : bool) (symbol : string)
    (firstBracketName : option nat) : option (option string) :=
  match firstBracketName with
  | Some fbn =>
      if demangling then
        match strchr_from symbol fbn "+" with
        | Some plus =>
            if (fbn + 1 <? plus)%nat then
              let n := (plus - fbn - 1)%nat in
              if (n <? 512)%nat
              then Some (cxa_demangle (substring (fbn + 1) n symbol))
              else None
            else Some None
        | None => Some None
        end
      else Some None
  | None => Some None
  end.

(** Lines 248-281: what one iteration of the loop prints; [None] where the
    C++ standard leaves the behaviour undefined (a null or overrun pointer). *)
Definition print_frame (demangling : bool) (ordinal : Z) (symbol : string)
    : option string :=
  let firstBracketName := strchr_from symbol 0 "(" in
  match strchr_from symbol 0 "[" with
  | None => None
  | Some firstBracketAddress =>
      match strchr_from symbol firstBracketAddress "]" with
      | None => None
      | Some secondBracketAddress =>
          let beginAddress := (firstBracketAddress + 3)%nat in
          let addressLen := Z.of_nat secondBracketAddress - Z.of_nat beginAddress in
          let padLen := ADDRESSDISPLAYLENGTH - addressLen in
          match demangle_frame demangling symbol firstBracketName,
                print_precision addressLen symbol beginAddress with
          | Some realname, Some address =>
              let head := "#" ++ print_left2 ordinal ++ " 0x"
                          ++ (if 0 <? padLen then zeros (Z.to_nat padLen)
                              else EmptyString) in
              match realname with
              | Some name => Some (head ++ address ++ " in " ++ name ++ newline)
              | None =>
                  Some (head ++ address ++ " in "
                        ++ substring 0 firstBracketAddress symbol ++ newline)
              end
          | _, _ => None
          end
      end
  end.

(** The loop of lines 247-282 from index [i], over [symbolstrings]. *)
Fixpoint print_frames (demangling : bool) (offset : nat) (i : nat)
    (symbols : list string) : option (list string) :=
  match symbols with
  | [] => Some []
  | symbol :: rest =>
      match print_frame demangling (Z.of_nat i - Z.of_nat offset) symbol,
            print_frames demangling offset (S i) rest with
      | Some text, Some texts => Some (text :: texts)
      | _, _ => None
      end
  end.

(** [print_stacktrace], lines 238-288; [stack] holds the return addresses
    of the active calls, innermost first.  The body is compiled only when
    [USE_UNIX_SIGNAL_SUPPORT] is defined. *)
Definition print_stacktrace (predefined : macros) (stack : list Z)
    (demangling : bool) : option (list string) :=
  if defined predefined "USE_UNIX_SIGNAL_SUPPORT" then
    let array := firstn 32 stack in
    let depth := length array in
    match backtrace_symbols array with
    | Some symbolstrings =>
        let offset := 3%nat in
        if (length symbolstrings =? depth)%nat then
          match print_frames demangling offset offset (skipn offset symbolstrings) with
          | Some texts => Some (("Callstack:" ++ newline) :: texts)
          | None => None
          end
        else None
    | None => Some ["Callstack could not be obtained" ++ newline]
    end
  else Some [].

(** The optional [case] labels of lines 315-324. *)
Definition optional_case (label : option Z) (text : string) : list (Z * list string) :=
  match label with Some l => [(l, [text])] | None => [] end.

Definition at_address (info : siginfo_t) : string :=
  " (at 0x" ++ format_pointer (si_addr info) ++ ")." ++ newline.

(** Lines 303-416: what the [switch] on the signal prints, and whether the
    call stack is to be printed. *)
Definition describe_signal (signo : Z) (info : siginfo_t) : list string * bool :=
  switch signo
    [ (SIGBUS,
       ((switch (si_code info)
          ([ (BUS_ADRALN, [" - BUS_ADRALN"]); (BUS_ADRERR, [" - BUS_ADRERR"]);
             (BUS_OBJERR, [" - BUS_OBJERR"]) ]
           ++ optional_case BUS_MCEERR_AR " - BUS_MCEERR_AR"
           ++ optional_case BUS_MCEERR_AO " - BUS_MCEERR_AO")%list []
        ++ [at_address info])%list, true));
      (SIGFPE,
       ((switch (si_code info)
          [ (FPE_INTDIV, [" - FPE_INTDIV"]); (FPE_INTOVF, [" - FPE_INTOVF"]);
            (FPE_FLTDIV, [" - FPE_FLTDIV"]); (FPE_FLTOVF, [" - FPE_FLTOVF"]);
            (FPE_FLTUND, [" - FPE_FLTUND"]); (FPE_FLTRES, [" - FPE_FLTRES"]);
            (FPE_FLTINV, [" - FPE_FLTINV"]); (FPE_FLTSUB, [" - FPE_FLTSUB"]) ] []
        ++ [at_address info])%list, true));
      (SIGILL,
       ((switch (si_code info)
          [ (ILL_ILLOPC, [" - ILL_ILLOPC"]); (ILL_ILLOPN, [" - ILL_ILLOPN"]);
            (ILL_ILLADR, [" - ILL_ILLADR"]); (ILL_ILLTRP, [" - ILL_ILLTRP"]);
            (ILL_PRVOPC, [" - ILL_PRVOPC"]); (ILL_PRVREG, [" - ILL_PRVREG"]);
            (ILL_COPROC, [" - ILL_COPROC"]); (ILL_BADSTK, [" - ILL_BADSTK"]) ] []
        ++ [at_address info])%list, true));
      (SIGINT, (["." ++ newline], false));
      (SIGSEGV,
       ((switch (si_code info)
          [ (SEGV_MAPERR, [" - SEGV_MAPERR"]); (SEGV_ACCERR, [" - SEGV_ACCERR"]) ] []
        ++ [at_address info])%list, true)) ]
    (["." ++ newline], true).

(** Line 298. *)
Definition exception_stream (exceptionOutput : string) : FILE :=
  if String.eqb exceptionOutput "stderr" then stderr else stdout.

(** Line 419. *)
Definition please_report : string :=
  newline ++ "Please report this to the cppcheck developers!" ++ newline.

(** [CppcheckSignalHandler], lines 293-422: the stream it writes to and the
    texts it writes before [abort()]; [None] when the behaviour is undefined. *)
Definition CppcheckSignalHandler (predefined : macros) (exceptionOutput : string)
    (stack : list Z) (signo : Z) (info : siginfo_t)
    : FILE * option (list string) :=
  let signame := signal_name signo in
  let sigtext := strsignal signo in
  let f := exception_stream exceptionOutput in
  let '(detail, bPrintCallstack) := describe_signal signo info in
  let head := (["Internal error: cppcheck received signal "; signame; ", "; sigtext]
               ++ detail)%list in
  if bPrintCallstack then
    match print_stacktrace predefined stack true with
    | Some texts =>
        (f, Some (head ++ texts ++ [please_report])%list)
    | None => (f, None)
    end
  else (f, Some head).

End FaultHandler.

(** [setExceptionOutput] and [getExceptionOutput], lines 754-764, on the
    static member [exceptionOutput]. *)
Record statics := { exceptionOutput : string }.

(** Line 764: the member is default-constructed. *)
Definition initial_statics : statics := {| exceptionOutput := EmptyString |}.

Definition setExceptionOutput (fn : string) (s : statics) : statics :=
  {| exceptionOutput := fn |}.

Definition getExceptionOutput (s : statics) : string := exceptionOutput s.

(** * Properties *)

Local Open Scope list_scope.

(** ** What the sink does to the executor *)

(** The text that [reportErr] hands to the error channel. *)
Definition render `{Renderer} (settings : Settings) (msg : ErrorMessage) : string :=
  if _xml settings
  then toXML msg (_verbose settings) (_xml_version settings)
  else toString msg (_verbose settings) (_outputFormat settings).

(** The SeenSet and the error channel agree: a text is in [_errorList]
    exactly when it was written, and nothing was written twice. *)
Definition sink_consistent (x : CppCheckExecutor) : Prop :=
  NoDup (cerr_lines (trace x))
  ∧ ∀ t : string, t ∈ _errorList x ↔ t ∈ cerr_lines (trace x).

(** [reaches Q E x x']: [x'] is [x] after some writes on the status channel
    or calls into the engine (events in [E]), changes of [time1], and calls
    of [reportErr(const std::string &)] on texts in [Q]. *)
Inductive reaches (Q : string -> Prop) (E : event -> Prop)
    : CppCheckExecutor -> CppCheckExecutor -> Prop :=
| reaches_refl x : reaches Q E x x
| reaches_emit x x' e :
    reaches Q E x x' -> E e -> cerr_text e = None -> reaches Q E x (emit e x')
| reaches_time x x' t :
    reaches Q E x x' -> reaches Q E x (set_time1 t x')
| reaches_err x x' t :
    reaches Q E x x' -> Q t -> reaches Q E x (reportErr_string t x').

Definition is_cout (e : event) : Prop := ∃ t, e = Cout t.

(** The calls into the engine, without their results. *)
Inductive engine_call :=
| CallCheck (path : string)
| CallFunctionUsage
| CallTooManyConfigs
| CallRunAll.

Definition engine_call_of (e : event) : option engine_call :=
  match e with
  | Analyze p _ => Some (CallCheck p)
  | FunctionUsage => Some CallFunctionUsage
  | TooManyConfigs => Some CallTooManyConfigs
  | RunAll _ => Some CallRunAll
  | _ => None
  end.

Definition engine_calls (tr : list event) : list engine_call := omap engine_call_of tr.

(** The sum of the defect counts that the engine returned. *)
Definition found_of (e : event) : Z :=
  match e with Analyze _ n => n | RunAll n => n | _ => 0 end.

Definition aggregate_found (tr : list event) : Z :=
  fold_right (fun e acc => found_of e + acc) 0 tr.

Definition any_event (e : event) : Prop := True.

(** [returnValue] is the sum of the counts returned since the trace had
    the aggregate [base], as an [unsigned int]. *)
Definition counts_from `{Engine} (base : Z) (st : dispatch_state) : Prop :=
  returnValue st = (aggregate_found (trace (exec st)) - base) mod UINT_MODULUS.

(** The order of [std::less<std::string>], and the invariant of the map:
    its entries are in strictly ascending key order. *)
Definition path_lt (a b : string) : Prop := String.compare a b = Lt.

Definition map_ordered (m : list (string * N)) : Prop :=
  StronglySorted path_lt (keys m).

(** A text that some diagnostic renders to, under the settings of the run. *)
Definition rendered `{Renderer} (settings : Settings) (t : string) : Prop :=
  ∃ msg : ErrorMessage, t = render settings msg.

(** An event on standard output: nothing on the error stream, no call
    into the engine. *)
Definition is_stdout (e : event) : Prop :=
  cerr_text e = None ∧ engine_call_of e = None.

(** [x'] is [x] after writes on standard output only. *)
Definition stdout_only (x x' : CppCheckExecutor) : Prop :=
  _errorList x' = _errorList x
  ∧ ∃ tr, trace x' = trace x ++ tr ∧ Forall is_stdout tr.

(** Does any mask of the list match the path (line 144). *)
Definition excluded `{Platform} `{PathServices} (masks : list string)
    (path : string) : Prop :=
  ∃ mask, mask ∈ masks ∧ mask_matches caseSensitive mask path = true.

(** Calls of [reportProgress]: any, those made before a time, and those
    made within the ten seconds from a time on. *)
Definition is_progress (cb : callback) : Prop :=
  match cb with call_reportProgress _ _ _ _ => True | _ => False end.

Definition progress_before (limit : Z) (cb : callback) : Prop :=
  match cb with call_reportProgress _ _ _ time2 => time2 < limit | _ => False end.

Definition progress_within (start : Z) (cb : callback) : Prop :=
  match cb with
  | call_reportProgress _ _ _ time2 => start <= time2 < start + 10
  | _ => False
  end.

(** The sum of the sizes of the files. *)
Definition sizes_sum (files : list (string * N)) : N :=
  fold_right (fun f acc => (snd f + acc)%N) 0%N files.











(** ** A concrete environment

    A small renderer, engine, platform, file system and C runtime on which
    the embedding can be run. *)

Module Sample.

Definition hex (n : Z) : string :=
  HexadecimalString.NilZero.string_of_uint (N.to_hex_uint (Z.to_N n)).

Definition location_text (l : FileLocation) : string :=
  ("[" ++ loc_file l ++ ":" ++ string_of_Z (loc_line l) ++ "]")%string.

Definition renderer : Renderer := {|
  getXMLHeader := fun v => ("<results version=" ++ string_of_Z v ++ ">")%string;
  getXMLFooter := fun _ => "</results>";
  toXML := fun m _ _ =>
    ("<error id=" ++ _id m ++ " msg=" ++ _msg m ++ " at="
     ++ String.concat "," (map location_text (_callStack m)) ++ "/>")%string;
  toString := fun m _ _ =>
    (String.concat " -> " (map location_text (_callStack m)) ++ ": " ++ _msg m)%string
|}.

(** Exact rational arithmetic in place of [long double]. *)
Definition exact_arithmetic : LongDouble := {|
  long_double := Q;
  ld_of_size := fun n => inject_Z (Z.of_N n);
  ld_of_int := inject_Z;
  ld_div := Qdiv;
  ld_mul := Qmult;
  ld_to_long := fun q => Z.quot (Qnum q) (Z.pos (Qden q))
|}.

Definition nullPointer (path : string) (line : Z) : ErrorMessage :=
  {| _callStack := [ {| loc_file := path; loc_line := line |} ];
     _severity := Severity.error;
     _msg := "Null pointer dereference";
     _id := "nullPointer";
     _inconclusive := false |}.

(** An engine without state: it finds ten defects in [a.c], reports one of
    them, and finds nothing elsewhere.  [installed] tells whether the
    configuration files can be loaded. *)
Definition the_engine (installed : bool) : Engine := {|
  engine := unit;
  cppcheck_version := "1.66";
  cppcheck_extraVersion := EmptyString;
  cppcheck_getErrorMessages := fun e => ([call_reportErr (nullPointer "a.c" 1)], e);
  library_load := fun _ e => (installed, e);
  cppcheck_check := fun path e =>
    if String.eqb path "a.c"
    then ([call_reportErr (nullPointer "a.c" 3)], 10, e)
    else ([], 0, e);
  cppcheck_checkFunctionUsage := fun e => ([], e);
  cppcheck_tooManyConfigsError := fun e => ([], e);
  unmatchedGlobalSuppressions := fun _ => [];
  missingIncludeFlag := fun _ => false;
  missingSystemIncludeFlag := fun _ => false;
  ThreadExecutor_check := fun _ e => ([], 0, e)
|}.

Definition platform (threads : bool) : Platform := {|
  SIZE_MODULUS := 2 ^ 64;
  sizeof_long := 8;
  defined_WIN32 := false;
  CFGDIR := None;
  cfgfolder := "/usr/bin/cfg";
  ThreadExecutor_isEnabled := threads
|}.

Definition platform_linux : Platform := platform true.

(** The text from the last dot on. *)
Fixpoint extension_from (s : string) : option string :=
  match s with
  | EmptyString => None
  | String a rest =>
      match extension_from rest with
      | Some ext => Some ext
      | None => if Ascii.eqb a "." then Some s else None
      end
  end.

Definition ends_with (mask path : string) : bool :=
  let n := String.length mask in
  let m := String.length path in
  (n <=? m)%nat && String.eqb (substring (m - n) n path) mask.

Definition paths : PathServices := {|
  toNativeSeparators := fun p => p;
  isDirectory := fun p => String.eqb p "include";
  getFilenameExtension := fun p =>
    match extension_from p with Some ext => ext | None => EmptyString end;
  expand := fun root _ => [(root, 100%N)];
  mask_matches := fun _ mask path => ends_with mask path
|}.

(** The numbers of Linux on x86-64, and symbols in the format of glibc. *)
Definition runtime : Runtime := {|
  SIGBUS := 7; SIGFPE := 8; SIGILL := 4; SIGINT := 2; SIGSEGV := 11;
  BUS_ADRALN := 1; BUS_ADRERR := 2; BUS_OBJERR := 3;
  BUS_MCEERR_AR := Some 4; BUS_MCEERR_AO := Some 5;
  FPE_INTDIV := 1; FPE_INTOVF := 2; FPE_FLTDIV := 3; FPE_FLTOVF := 4;
  FPE_FLTUND := 5; FPE_FLTRES := 6; FPE_FLTINV := 7; FPE_FLTSUB := 8;
  ILL_ILLOPC := 1; ILL_ILLOPN := 2; ILL_ILLADR := 3; ILL_ILLTRP := 4;
  ILL_PRVOPC := 5; ILL_PRVREG := 6; ILL_COPROC := 7; ILL_BADSTK := 8;
  SEGV_MAPERR := 1; SEGV_ACCERR := 2;
  strsignal := fun signo =>
    if signo =? 11 then "Segmentation fault"
    else if signo =? 2 then "Interrupt" else "Unknown signal";
  format_pointer := fun a => ("0x" ++ hex a)%string;
  backtrace_symbols := fun addresses =>
    Some (map (fun a => ("./cppcheck(_ZN8CppCheck5checkERKSs+0x1f) [0x" ++ hex a ++ "]")%string)
              addresses);
  cxa_demangle := fun name =>
    if String.eqb name "_ZN8CppCheck5checkERKSs"
    then Some "CppCheck::check(std::string const&)" else None
|}.

(** A build with GCC on Linux: of the macros this file tests, the compiler
    defines [__GNUC__] only. *)
Definition gcc_linux : macros := fun name => String.eqb name "__GNUC__".

Definition settings (xml : bool) (jobs exitCode : Z) : Settings := {|
  _xml := xml; _xml_version := 2; _jobs := jobs; _errorsOnly := false;
  _exitCode := exitCode; _verbose := false; _outputFormat := EmptyString;
  reportProgress_enabled := false; checkConfiguration := false;
  exceptionHandling := false; standards_posix := false;
  isEnabled := fun _ => false; _includePaths := []; terminated := false;
  markupFile := fun p => ends_with ".qml" p;
  processMarkupAfterCode := fun p => ends_with ".qml" p;
  markupExtensions := [".qml"]
|}.

Definition parser (pathnames ignored : list string) : CmdLineParser := {|
  ParseFromArgs := true; GetShowVersion := false; GetShowErrorMessages := false;
  ExitAfterPrinting := false; GetPathNames := pathnames; GetIgnoredPaths := ignored
|}.

(** The executor once [parseFromArgs] has found the given files. *)
Definition executor (files : list (string * N)) : CppCheckExecutor :=
  set_files files new_executor.

End Sample.

Lemma cerr_lines_app tr1 tr2 : cerr_lines (tr1 ++ tr2) = cerr_lines tr1 ++ cerr_lines tr2.
Proof. apply omap_app. Qed.

Lemma cout_lines_app tr1 tr2 : cout_lines (tr1 ++ tr2) = cout_lines tr1 ++ cout_lines tr2.
Proof. apply omap_app. Qed.

Lemma engine_calls_app tr1 tr2 :
  engine_calls (tr1 ++ tr2) = engine_calls tr1 ++ engine_calls tr2.
Proof. apply omap_app. Qed.

Lemma aggregate_found_app tr1 tr2 :
  aggregate_found (tr1 ++ tr2) = aggregate_found tr1 + aggregate_found tr2.
Proof.
  induction tr1 as [|e tr1 IH]; simpl; [lia|]. rewrite IH. lia.
Qed.

Lemma reaches_trans Q E x y z : reaches Q E x y -> reaches Q E y z -> reaches Q E x z.
Proof.
  intros Hxy Hyz. induction Hyz; eauto using reaches.
Qed.

Lemma reaches_weaken (Q Q' : string -> Prop) (E E' : event -> Prop) x x' :
  (∀ t, Q t -> Q' t) -> (∀ e, E e -> E' e) -> reaches Q E x x' -> reaches Q' E' x x'.
Proof.
  intros HQ HE Hr. induction Hr; eauto using reaches.
Qed.

Lemma reportErr_string_seen t x :
  t ∈ _errorList x -> reportErr_string t x = x.
Proof.
  intros Hin. unfold reportErr_string. by rewrite bool_decide_eq_true_2.
Qed.

Lemma reportErr_string_new t x :
  t ∉ _errorList x ->
  reportErr_string t x = emit (Cerr t) (errorList_insert t x).
Proof.
  intros Hin. unfold reportErr_string. by rewrite bool_decide_eq_false_2.
Qed.

(** The members that the sink never touches. *)
Lemma reaches_files Q E x x' : reaches Q E x x' -> _files x' = _files x.
Proof.
  induction 1; simpl; auto.
  unfold reportErr_string. by case_bool_decide.
Qed.

Lemma reaches_errorlist Q E x x' : reaches Q E x x' -> errorlist x' = errorlist x.
Proof.
  induction 1; simpl; auto.
  unfold reportErr_string. by case_bool_decide.
Qed.

(** The trace only grows, by events in [E] and error texts in [Q]. *)
Lemma reaches_trace Q E x x' :
  reaches Q E x x' ->
  ∃ tr, trace x' = trace x ++ tr
        ∧ Forall (fun e => match e with Cerr t => Q t | _ => E e end) tr.
Proof.
  induction 1 as [x|x x' e _ [tr [Htr Hall]] He Hc|x x' t _ [tr [Htr Hall]]
                 |x x' t _ [tr [Htr Hall]] Hq].
  - exists []. rewrite app_nil_r. auto.
  - exists (tr ++ [e]). simpl. rewrite Htr, app_assoc. split; [done|].
    apply Forall_app. split; [done|]. constructor; [|constructor].
    destruct e; simpl in *; auto; discriminate.
  - exists tr. auto.
  - unfold reportErr_string. case_bool_decide.
    + exists tr. auto.
    + exists (tr ++ [Cerr t]). simpl. rewrite Htr, app_assoc. split; [done|].
      apply Forall_app. split; [done|]. constructor; [done|constructor].
Qed.

Lemma reaches_consistent Q E x x' :
  reaches Q E x x' -> sink_consistent x -> sink_consistent x'.
Proof.
  induction 1 as [x|x x' e _ IH He Hc|x x' t _ IH|x x' t _ IH Hq]; intros Hx; auto.
  - destruct (IH Hx) as [Hnd Hiff]. split; simpl.
    + rewrite cerr_lines_app. simpl. rewrite Hc. simpl. by rewrite app_nil_r.
    + intros s. rewrite cerr_lines_app. simpl. rewrite Hc. simpl.
      rewrite app_nil_r. apply Hiff.
  - destruct (IH Hx) as [Hnd Hiff]. unfold reportErr_string.
    case_bool_decide as Hin; [by split|]. split; simpl.
    + rewrite cerr_lines_app. simpl. apply NoDup_app. split; [done|].
      split; [|apply NoDup_singleton].
      intros s Hs Hs'. apply list_elem_of_singleton in Hs'. subst s.
      apply Hin, Hiff, Hs.
    + intros s. rewrite cerr_lines_app. simpl. rewrite elem_of_app.
      rewrite list_elem_of_singleton, elem_of_union, elem_of_singleton, Hiff.
      tauto.
Qed.

Lemma new_executor_consistent : sink_consistent new_executor.
Proof.
  split; simpl; [constructor|]. intros t. set_solver.
Qed.

(** ** The members of the sink, as steps *)

Section SinkFacts.
Context `{Renderer} `{LongDouble}.

Lemma reportOut_reaches Q outmsg x : reaches Q is_cout x (reportOut outmsg x).
Proof.
  unfold reportOut. apply reaches_emit; [constructor | by eexists | done].
Qed.

Lemma reportErr_string_reaches (Q : string -> Prop) E t x :
  Q t -> reaches Q E x (reportErr_string t x).
Proof. intros Hq. apply reaches_err; [constructor | done]. Qed.

Lemma reportProgress_reaches Q filename stage value time2 x :
  reaches Q is_cout x (reportProgress filename stage value time2 x).
Proof.
  unfold reportProgress.
  destruct (time1 x =? 0); [constructor|].
  destruct (time1 x + 10 <=? time2); [|constructor].
  unfold reportOut. apply reaches_emit; [|by eexists|done].
  apply reaches_time. constructor.
Qed.

Lemma reportStatus_reaches Q fileindex filecount sizedone sizetotal x :
  reaches Q is_cout x (reportStatus fileindex filecount sizedone sizetotal x).
Proof.
  unfold reportStatus. destruct (1 <? filecount)%N; [|constructor].
  apply reaches_emit; [constructor | by eexists | done].
Qed.

Lemma render_rendered settings msg : rendered settings (render settings msg).
Proof. by exists msg. Qed.

(** Outside [--errorlist], [reportErr] is [reportErr(const std::string &)]
    on the rendered text. *)
Lemma reportErr_render settings msg x :
  errorlist x = false ->
  reportErr settings msg x = reportErr_string (render settings msg) x.
Proof.
  intros Hel. unfold reportErr, render. rewrite Hel. by destruct (_xml settings).
Qed.

Lemma reportErr_reaches settings msg x :
  reaches (rendered settings) is_cout x (reportErr settings msg x).
Proof.
  unfold reportErr. destruct (errorlist x).
  - apply reportOut_reaches.
  - pose proof (render_rendered settings msg) as Hr. unfold render in Hr.
    destruct (_xml settings); by apply reportErr_string_reaches.
Qed.

Lemma deliver_reaches settings cb x :
  reaches (rendered settings) is_cout x (deliver settings cb x).
Proof.
  destruct cb; simpl.
  - apply reportOut_reaches.
  - apply reportErr_reaches.
  - apply reportProgress_reaches.
  - apply reportErr_reaches.
  - apply reportStatus_reaches.
Qed.

Lemma deliver_all_reaches settings cbs x :
  reaches (rendered settings) is_cout x (deliver_all settings cbs x).
Proof.
  unfold deliver_all. revert x.
  induction cbs as [|cb cbs IH]; intros x; simpl; [constructor|].
  eapply reaches_trans; [apply deliver_reaches | apply IH].
Qed.

Lemma reportErr_fold_reaches settings msgs x :
  reaches (rendered settings) is_cout x
    (fold_left (fun x' msg => reportErr settings msg x') msgs x).
Proof.
  revert x. induction msgs as [|m msgs IH]; intros x; simpl; [constructor|].
  eapply reaches_trans; [apply reportErr_reaches | apply IH].
Qed.

End SinkFacts.

(** Once a text is in the SeenSet it stays there. *)
Lemma reaches_seen Q E x x' t :
  reaches Q E x x' -> t ∈ _errorList x -> t ∈ _errorList x'.
Proof.
  induction 1 as [x|x x' e _ IH He Hc|x x' s _ IH|x x' s _ IH Hq]; intros Hin; auto.
  unfold reportErr_string. case_bool_decide; [auto|]. simpl.
  apply elem_of_union. right. auto.
Qed.

Lemma reportErr_string_records t x : t ∈ _errorList (reportErr_string t x).
Proof.
  unfold reportErr_string. case_bool_decide; [done|]. simpl.
  apply elem_of_union. left. by apply elem_of_singleton.
Qed.

(** A diagnostic that the engine reported is in the SeenSet afterwards. *)
Lemma deliver_all_records `{Renderer} `{LongDouble} settings cbs x msg :
  errorlist x = false ->
  call_reportErr msg ∈ cbs ->
  render settings msg ∈ _errorList (deliver_all settings cbs x).
Proof.
  revert x. induction cbs as [|cb cbs IH]; intros x Hel Hin.
  - by apply not_elem_of_nil in Hin.
  - change (deliver_all settings (cb :: cbs) x)
      with (deliver_all settings cbs (deliver settings cb x)).
    apply elem_of_cons in Hin as [<-|Hin].
    + eapply reaches_seen; [apply deliver_all_reaches|]. simpl.
      rewrite reportErr_render by done. apply reportErr_string_records.
    + apply IH; [|done]. rewrite <- Hel.
      eapply reaches_errorlist, deliver_reaches.
Qed.

(** ** The error channel never repeats a text *)

(** C5. Within a run, whatever the engine reports and in whatever order,
    status messages in between or not: no text is written to the error
    stream twice; the text of every diagnostic reported is on the stream; a
    diagnostic whose rendered text is already on the stream is dropped
    without any effect; and two diagnostics whose rendered texts differ (as
    they do when the location is part of the text) and are both new are
    both written. *)
Theorem reportErr_writes_each_text_once `{Renderer} `{LongDouble}
    (settings : Settings) (cbs : list callback) (x : CppCheckExecutor) :
  sink_consistent x ->
  errorlist x = false ->
  let x' := deliver_all settings cbs x in
  NoDup (cerr_lines (trace x'))
  ∧ (∀ msg, call_reportErr msg ∈ cbs -> render settings msg ∈ cerr_lines (trace x'))
  ∧ (∀ t, t ∈ cerr_lines (trace x') -> reportErr_string t x' = x')
  ∧ (∀ msg, render settings msg ∈ cerr_lines (trace x') ->
            reportErr settings msg x' = x')
  ∧ (∀ m1 m2,
        render settings m1 ≠ render settings m2 ->
        render settings m1 ∉ cerr_lines (trace x') ->
        render settings m2 ∉ cerr_lines (trace x') ->
        trace (reportErr settings m2 (reportErr settings m1 x'))
        = trace x' ++ [Cerr (render settings m1); Cerr (render settings m2)]).
Proof.
  intros Hx Hel x'.
  assert (Hx' : sink_consistent x').
  { eapply reaches_consistent; [apply deliver_all_reaches | done]. }
  assert (Hel' : errorlist x' = false).
  { rewrite <- Hel. eapply reaches_errorlist, deliver_all_reaches. }
  destruct Hx' as [Hnd Hiff].
  split; [done|]. split; [|split; [|split]].
  - intros msg Hin. apply Hiff. by apply deliver_all_records.
  - intros t Hin. apply reportErr_string_seen. by apply Hiff.
  - intros msg Hin. rewrite reportErr_render by done.
    apply reportErr_string_seen. by apply Hiff.
  - intros m1 m2 Hne H1 H2.
    rewrite (reportErr_render settings m1 x' Hel').
    rewrite (reportErr_string_new (render settings m1) x') by (by rewrite Hiff).
    rewrite reportErr_render by done.
    rewrite reportErr_string_new.
    + simpl. by rewrite <- app_assoc.
    + simpl. rewrite elem_of_union, elem_of_singleton, Hiff. intros [Heq|Hin]; auto.
Qed.

(** Three reports of the same defect, two of them at the same place, with a
    progress line in between: two texts on the error stream. *)
Lemma reportErr_writes_each_text_once_witness :
  let cbs := [ call_reportErr (Sample.nullPointer "a.c" 3);
               call_reportOut "progress: a.c 50%";
               call_reportErr (Sample.nullPointer "a.c" 3);
               call_reportErr (Sample.nullPointer "a.c" 7) ] in
  let x' := @deliver_all Sample.renderer Sample.exact_arithmetic
              (Sample.settings false 1 0) cbs new_executor in
  cerr_lines (trace x')
  = ["[a.c:3]: Null pointer dereference"; "[a.c:7]: Null pointer dereference"]
  ∧ NoDup (cerr_lines (trace x')).
Proof.
  split; [reflexivity|].
  apply (reportErr_writes_each_text_once (H := Sample.renderer)
           (H0 := Sample.exact_arithmetic) (Sample.settings false 1 0)
           [ call_reportErr (Sample.nullPointer "a.c" 3);
             call_reportOut "progress: a.c 50%";
             call_reportErr (Sample.nullPointer "a.c" 3);
             call_reportErr (Sample.nullPointer "a.c" 7) ]
           new_executor new_executor_consistent eq_refl).
Defined.

(** ** The status channel *)

(** C6, as the code has it.  [reportOut], and with it every status line of
    [reportStatus], is written whenever it is called, twice when called
    twice, and leaves the SeenSet alone.  [reportInfo] is [reportErr]: in
    [--errorlist] mode its text goes to [reportOut]; otherwise the rendered
    text goes through the SeenSet to the error channel, so that reporting
    the same message again changes nothing. *)
Theorem reportOut_unconditional_reportInfo_seen `{Renderer} `{LongDouble}
    (settings : Settings) (outmsg : string) (msg : ErrorMessage)
    (fileindex filecount sizedone sizetotal : N) (x : CppCheckExecutor) :
  trace (reportOut outmsg (reportOut outmsg x)) = trace x ++ [Cout outmsg; Cout outmsg]
  ∧ _errorList (reportOut outmsg (reportOut outmsg x)) = _errorList x
  ∧ (let again := reportStatus fileindex filecount sizedone sizetotal in
     let text := status_text fileindex filecount (percent_done sizedone sizetotal) in
     trace (again (again x))
     = trace x ++ (if (1 <? filecount)%N then [Cout text; Cout text] else [])
     ∧ _errorList (again (again x)) = _errorList x)
  ∧ reportInfo settings msg x
    = (if errorlist x
       then reportOut (toXML msg false (_xml_version settings)) x
       else reportErr_string (render settings msg) x)
  ∧ (if errorlist x then True
     else reportInfo settings msg (reportInfo settings msg x)
          = reportInfo settings msg x).
Proof.
  split; [|split; [|split; [|split]]].
  - simpl. by rewrite <- app_assoc.
  - reflexivity.
  - unfold reportStatus. destruct (1 <? filecount)%N; simpl.
    + by rewrite <- app_assoc.
    + by rewrite app_nil_r.
  - unfold reportInfo. destruct (errorlist x) eqn:Hel.
    + unfold reportErr. by rewrite Hel.
    + by apply reportErr_render.
  - destruct (errorlist x) eqn:Hel; [done|].
    unfold reportInfo. rewrite (reportErr_render settings msg x Hel).
    rewrite reportErr_render.
    + apply reportErr_string_seen, reportErr_string_records.
    + rewrite <- Hel. eapply reaches_errorlist.
      apply (reportErr_string_reaches (fun _ => True) is_cout). done.
Qed.

(** C6 as stated fails for [reportInfo]: the same informational report
    twice yields one write, on the error channel, and none on the status
    channel. *)
Lemma reportInfo_twice_writes_once :
  let settings := Sample.settings false 1 0 in
  let msg := Sample.nullPointer "a.c" 3 in
  let x := @reportInfo Sample.renderer settings msg
             (@reportInfo Sample.renderer settings msg new_executor) in
  trace x = [Cerr "[a.c:3]: Null pointer dereference"]
  ∧ ¬ (length (trace x) = 2%nat).
Proof.
  split; [reflexivity|]. vm_compute. discriminate.
Qed.

(** ** The percentage of [reportStatus] *)

(** C10. With more than one file, [reportStatus] writes one status line; the
    division of its percentage is evaluated only for a positive [sizetotal],
    so the evaluation with a faulting division never faults; the percentage
    is the quotient times 100 for a positive [sizetotal] and 0 for zero. *)
Theorem reportStatus_never_divides_by_zero `{LongDouble}
    (fileindex filecount sizedone sizetotal : N) (x : CppCheckExecutor) :
  (1 < filecount)%N ->
  reportStatus_checked fileindex filecount sizedone sizetotal x
  = inr (reportStatus fileindex filecount sizedone sizetotal x)
  ∧ percent_done_checked sizedone sizetotal = inr (percent_done sizedone sizetotal)
  ∧ trace (reportStatus fileindex filecount sizedone sizetotal x)
    = trace x ++ [Cout (status_text fileindex filecount (percent_done sizedone sizetotal))]
  ∧ ((0 < sizetotal)%N ->
     percent_done sizedone sizetotal
     = ld_to_long (ld_mul (ld_div (ld_of_size sizedone) (ld_of_size sizetotal))
                          (ld_of_int 100)))
  ∧ (sizetotal = 0%N -> percent_done sizedone sizetotal = 0).
Proof.
  intros Hcount.
  assert (Hp : percent_done_checked sizedone sizetotal
               = inr (percent_done sizedone sizetotal)).
  { unfold percent_done_checked, percent_done, ld_div_checked.
    destruct (0 <? sizetotal)%N eqn:Hpos; [|done].
    apply N.ltb_lt in Hpos.
    destruct (sizetotal =? 0)%N eqn:Hz; [|done].
    apply N.eqb_eq in Hz. lia. }
  apply N.ltb_lt in Hcount.
  split; [|split; [done|split; [|split]]].
  - unfold reportStatus_checked, reportStatus. by rewrite Hcount, Hp.
  - unfold reportStatus. by rewrite Hcount.
  - intros Hpos. apply N.ltb_lt in Hpos. unfold percent_done. by rewrite Hpos.
  - intros ->. reflexivity.
Qed.

Lemma reportStatus_never_divides_by_zero_witness :
  cout_lines (trace (@reportStatus Sample.exact_arithmetic 1 2 0 0 new_executor))
  = ["1/2 files checked 0% done"]
  ∧ @reportStatus_checked Sample.exact_arithmetic 1 2 0 0 new_executor
    = inr (@reportStatus Sample.exact_arithmetic 1 2 0 0 new_executor).
Proof.
  split; [reflexivity|].
  apply (reportStatus_never_divides_by_zero (H := Sample.exact_arithmetic)
           1 2 0 0 new_executor).
  reflexivity.
Defined.

(** ** The dispatcher, step by step *)

(** Steps of the sink add no call into the engine and no defect count. *)
Lemma reaches_cout_engine Q x x' :
  reaches Q is_cout x x' ->
  engine_calls (trace x') = engine_calls (trace x)
  ∧ aggregate_found (trace x') = aggregate_found (trace x).
Proof.
  intros Hr. destruct (reaches_trace _ _ _ _ Hr) as [tr [-> Hall]].
  rewrite engine_calls_app, aggregate_found_app.
  assert (Hnone : engine_calls tr = [] ∧ aggregate_found tr = 0).
  { clear Hr. induction Hall as [|e tr He _ [IH1 IH2]]; [done|].
    unfold engine_calls in *. simpl.
    destruct e; try (destruct He as [? He]; discriminate He); simpl; by rewrite ?IH1, ?IH2. }
  destruct Hnone as [-> ->]. rewrite app_nil_r. split; [done|lia].
Qed.

Section DispatcherFacts.
Context `{Renderer} `{LongDouble} `{Engine} `{Platform}.

Lemma check_file_steps settings filecount totalfilesize f st :
  ∃ cbs found e',
    cppcheck_check (fst f) (eng st) = (cbs, found, e')
    ∧ returnValue (check_file settings filecount totalfilesize f st)
      = uint_add (returnValue st) found
    ∧ reaches (rendered settings) is_cout
        (emit (Analyze (fst f) found) (exec st))
        (exec (check_file settings filecount totalfilesize f st)).
Proof.
  unfold check_file.
  destruct (cppcheck_check (fst f) (eng st)) as [[cbs found] e'].
  exists cbs, found, e'. split; [done|]. split; [done|]. simpl.
  destruct (negb (_errorsOnly settings)).
  - eapply reaches_trans; [apply deliver_all_reaches | apply reportStatus_reaches].
  - apply deliver_all_reaches.
Qed.

Lemma check_file_reaches settings filecount totalfilesize f st :
  reaches (rendered settings) any_event (exec st)
    (exec (check_file settings filecount totalfilesize f st)).
Proof.
  destruct (check_file_steps settings filecount totalfilesize f st)
    as (cbs & found & e' & _ & _ & Hr).
  eapply reaches_trans.
  - apply reaches_emit with (e := Analyze (fst f) found); [constructor|done|done].
  - eapply reaches_weaken; [| |exact Hr]; done.
Qed.

Lemma check_file_calls settings filecount totalfilesize f st :
  engine_calls (trace (exec (check_file settings filecount totalfilesize f st)))
  = engine_calls (trace (exec st)) ++ [CallCheck (fst f)].
Proof.
  destruct (check_file_steps settings filecount totalfilesize f st)
    as (cbs & found & e' & _ & _ & Hr).
  apply reaches_cout_engine in Hr as [-> _]. simpl.
  by rewrite engine_calls_app.
Qed.

Lemma check_file_counts settings filecount totalfilesize f st base :
  counts_from base st ->
  counts_from base (check_file settings filecount totalfilesize f st).
Proof.
  unfold counts_from. intros Hst.
  destruct (check_file_steps settings filecount totalfilesize f st)
    as (cbs & found & e' & _ & -> & Hr).
  apply reaches_cout_engine in Hr as [_ ->]. simpl.
  rewrite aggregate_found_app. simpl. unfold uint_add. rewrite Hst.
  rewrite Zplus_mod_idemp_l. f_equal. lia.
Qed.

Lemma check_loop_reaches settings sel filecount totalfilesize files st :
  reaches (rendered settings) any_event (exec st)
    (exec (check_loop settings sel filecount totalfilesize files st)).
Proof.
  revert st. induction files as [|f files IH]; intros st; simpl; [constructor|].
  destruct (sel (fst f)); [|apply IH].
  eapply reaches_trans; [apply check_file_reaches | apply IH].
Qed.

Lemma check_loop_calls settings sel filecount totalfilesize files st :
  engine_calls (trace (exec (check_loop settings sel filecount totalfilesize files st)))
  = engine_calls (trace (exec st)) ++ map CallCheck (List.filter sel (keys files)).
Proof.
  revert st. induction files as [|f files IH]; intros st; simpl.
  - by rewrite app_nil_r.
  - rewrite IH. destruct (sel (fst f)); [|done].
    rewrite check_file_calls. simpl. by rewrite <- app_assoc.
Qed.

Lemma check_loop_counts settings sel filecount totalfilesize files st base :
  counts_from base st ->
  counts_from base (check_loop settings sel filecount totalfilesize files st).
Proof.
  revert st. induction files as [|f files IH]; intros st Hst; simpl; [done|].
  apply IH. destruct (sel (fst f)); [|done]. by apply check_file_counts.
Qed.

(** The sequential branch of [dispatch]. *)
Lemma dispatch_sequential_calls settings e x :
  _jobs settings = 1 ->
  engine_calls (trace (exec (dispatch settings e x)))
  = engine_calls (trace x)
    ++ map CallCheck (List.filter (first_pass settings) (keys (_files x))
                      ++ List.filter (second_pass settings) (keys (_files x)))
    ++ [CallFunctionUsage].
Proof.
  intros Hjobs. unfold dispatch. rewrite Hjobs. simpl.
  destruct (cppcheck_checkFunctionUsage _) as [cbs e'] eqn:Hfu.
  set (st2 := check_loop settings (second_pass settings) _ _ _ _) in *. simpl.
  destruct (reaches_cout_engine _ _ _
              (deliver_all_reaches settings cbs (emit FunctionUsage (exec st2))))
    as [-> _].
  simpl. rewrite engine_calls_app. simpl. subst st2.
  rewrite !check_loop_calls. simpl.
  rewrite map_app. by rewrite <- !app_assoc.
Qed.

Lemma dispatch_reaches settings e x :
  reaches (rendered settings) any_event x (exec (dispatch settings e x)).
Proof.
  unfold dispatch. destruct (_jobs settings =? 1).
  - set (st0 := {| returnValue := 0; processedsize := 0%N; c := 0; eng := e; exec := x |}).
    set (st1 := check_loop settings (first_pass settings) _ _ _ st0).
    set (st2 := check_loop settings (second_pass settings) _ _ _ st1).
    destruct (cppcheck_checkFunctionUsage _) as [cbs e']. simpl.
    apply reaches_trans with (exec st1); [apply (check_loop_reaches _ _ _ _ _ st0)|].
    apply reaches_trans with (exec st2); [apply check_loop_reaches|].
    eapply reaches_trans.
    + apply reaches_emit with (e := FunctionUsage); [constructor|done|done].
    + eapply reaches_weaken; [| |apply deliver_all_reaches]; done.
  - destruct (negb ThreadExecutor_isEnabled).
    + simpl. apply reaches_emit; [constructor|done|done].
    + destruct (ThreadExecutor_check _ _) as [[cbs found] e']. simpl.
      eapply reaches_trans.
      * apply reaches_emit with (e := RunAll found); [constructor|done|done].
      * eapply reaches_weaken; [| |apply deliver_all_reaches]; done.
Qed.

Lemma dispatch_counts settings e x :
  counts_from (aggregate_found (trace x)) (dispatch settings e x).
Proof.
  unfold dispatch. destruct (_jobs settings =? 1).
  - destruct (cppcheck_checkFunctionUsage _) as [cbs e'] eqn:Hfu.
    set (st2 := check_loop settings (second_pass settings) _ _ _ _) in *.
    assert (Hst2 : counts_from (aggregate_found (trace x)) st2).
    { subst st2. do 2 apply check_loop_counts.
      unfold counts_from. simpl. by rewrite Z.sub_diag. }
    unfold counts_from in *. simpl.
    destruct (reaches_cout_engine _ _ _
                (deliver_all_reaches settings cbs (emit FunctionUsage (exec st2))))
      as [_ ->].
    simpl. rewrite aggregate_found_app. simpl. rewrite Hst2. f_equal. lia.
  - destruct (negb ThreadExecutor_isEnabled).
    + unfold counts_from. simpl. rewrite aggregate_found_app. simpl.
      replace (aggregate_found (trace x) + (0 + 0) - aggregate_found (trace x))
        with 0 by lia.
      done.
    + destruct (ThreadExecutor_check _ _) as [[cbs found] e'].
      unfold counts_from. simpl.
      destruct (reaches_cout_engine _ _ _
                  (deliver_all_reaches settings cbs (emit (RunAll found) x)))
        as [_ ->].
      simpl. rewrite aggregate_found_app. simpl. f_equal. lia.
Qed.

(** Lines 655-675 analyse nothing and leave [returnValue] alone. *)
Lemma after_dispatch_reaches settings st :
  reaches (rendered settings) any_event (exec st) (exec (after_dispatch settings st)).
Proof.
  unfold after_dispatch.
  set (x1 := if isEnabled settings "information" || checkConfiguration settings
             then _ else _).
  assert (Hx1 : reaches (rendered settings) any_event (exec st) x1).
  { subst x1. destruct (_ || _); [|constructor].
    eapply reaches_weaken; [| |apply reportErr_fold_reaches]; done. }
  destruct (negb (checkConfiguration settings)); [|done].
  destruct (cppcheck_tooManyConfigsError (eng st)) as [cbs e']. simpl.
  eapply reaches_trans; [exact Hx1|].
  eapply reaches_trans.
  { apply reaches_emit with (e := TooManyConfigs); [constructor|done|done]. }
  eapply reaches_trans.
  { eapply reaches_weaken; [| |apply deliver_all_reaches]; done. }
  destruct (_ && _); [|constructor].
  eapply reaches_weaken; [| |apply reportErr_reaches]; done.
Qed.

Lemma after_dispatch_calls settings st :
  returnValue (after_dispatch settings st) = returnValue st
  ∧ aggregate_found (trace (exec (after_dispatch settings st)))
    = aggregate_found (trace (exec st))
  ∧ engine_calls (trace (exec (after_dispatch settings st)))
    = engine_calls (trace (exec st))
      ++ (if checkConfiguration settings then [] else [CallTooManyConfigs]).
Proof.
  unfold after_dispatch.
  set (x1 := if isEnabled settings "information" || checkConfiguration settings
             then _ else _).
  assert (Hx1 : reaches (rendered settings) is_cout (exec st) x1).
  { subst x1. destruct (_ || _); [|constructor]. apply reportErr_fold_reaches. }
  apply reaches_cout_engine in Hx1 as [Hc1 Ha1].
  destruct (checkConfiguration settings); simpl.
  { rewrite app_nil_r. done. }
  destruct (cppcheck_tooManyConfigsError (eng st)) as [cbs e']. simpl.
  set (x2 := deliver_all settings cbs (emit TooManyConfigs x1)).
  assert (Hx2 : reaches (rendered settings) is_cout (emit TooManyConfigs x1) x2).
  { apply deliver_all_reaches. }
  apply reaches_cout_engine in Hx2 as [Hc2 Ha2].
  set (x3 := if _ && _ then _ else x2).
  assert (Hx3 : reaches (rendered settings) is_cout x2 x3).
  { subst x3. destruct (_ && _); [|constructor]. apply reportErr_reaches. }
  apply reaches_cout_engine in Hx3 as [Hc3 Ha3].
  split; [done|]. rewrite Hc3, Ha3, Hc2, Ha2. simpl.
  rewrite engine_calls_app, aggregate_found_app, Hc1, Ha1. simpl.
  split; [lia|done].
Qed.

End DispatcherFacts.

Arguments erase_matching : simpl never.

(** ** The file map stays ordered *)

Lemma path_lt_trans a b c : path_lt a b -> path_lt b c -> path_lt a c.
Proof.
  unfold path_lt. intros Hab Hbc.
  apply String_as_OT.cmp_lt. apply String_as_OT.cmp_lt in Hab, Hbc.
  eapply String_as_OT.lt_trans; eauto.
Qed.

Lemma path_lt_irrefl a : ¬ path_lt a a.
Proof.
  unfold path_lt. intros Hlt. apply String_as_OT.cmp_lt in Hlt.
  by apply String_as_OT.lt_not_eq in Hlt.
Qed.

Lemma compare_Gt_lt a b : String.compare a b = Gt -> path_lt b a.
Proof.
  unfold path_lt. intros Hgt. rewrite String.compare_antisym, Hgt. done.
Qed.

Lemma map_assign_keys_above a k v m :
  path_lt a k -> Forall (path_lt a) (keys m) ->
  Forall (path_lt a) (keys (map_assign k v m)).
Proof.
  intros Hak. induction m as [|[k' v'] m IH]; intros Hall; simpl.
  - by repeat constructor.
  - simpl in Hall. apply Forall_cons in Hall as [Hk' Hm].
    destruct (String.compare k k'); simpl.
    + by constructor.
    + by repeat constructor.
    + constructor; [done|]. by apply IH.
Qed.

Lemma map_assign_ordered k v m : map_ordered m -> map_ordered (map_assign k v m).
Proof.
  unfold map_ordered. induction m as [|[k' v'] m IH]; intros Hm; simpl.
  - repeat constructor.
  - simpl in Hm. apply StronglySorted_inv in Hm as [Hsorted Hall].
    destruct (String.compare k k') eqn:Hcmp; simpl.
    + apply String.compare_eq_iff in Hcmp. subst k'. by constructor.
    + constructor.
      * by constructor.
      * constructor; [done|].
        eapply Forall_impl; [exact Hall|]. intros b Hb. simpl in Hb.
        by eapply path_lt_trans.
    + constructor; [by apply IH|].
      apply map_assign_keys_above; [by apply compare_Gt_lt | done].
Qed.

Lemma map_ordered_filter (keep : string * N -> bool) m :
  map_ordered m -> map_ordered (List.filter keep m).
Proof.
  unfold map_ordered. induction m as [|f m IH]; intros Hm; simpl; [done|].
  simpl in Hm. apply StronglySorted_inv in Hm as [Hsorted Hall].
  destruct (keep f); simpl; [|by apply IH].
  constructor; [by apply IH|].
  clear IH Hsorted. induction m as [|g m IH]; simpl; [constructor|].
  simpl in Hall. apply Forall_cons in Hall as [Hg Hm].
  destruct (keep g); simpl; [constructor|]; auto.
Qed.

(** Strictly ascending keys are distinct. *)
Lemma map_ordered_NoDup m : map_ordered m -> NoDup (keys m).
Proof.
  unfold map_ordered. induction 1 as [|a l Hsorted IH Hall]; [constructor|].
  apply NoDup_cons. split; [|done].
  intros Hin. eapply Forall_forall in Hall; [|exact Hin].
  by apply path_lt_irrefl in Hall.
Qed.

Lemma filter_sorted (sel : string -> bool) l :
  StronglySorted path_lt l -> StronglySorted path_lt (List.filter sel l).
Proof.
  induction 1 as [|a l Hsorted IH Hall]; simpl; [constructor|].
  destruct (sel a); [|done]. constructor; [done|].
  clear IH Hsorted. induction l as [|b l IH]; simpl; [constructor|].
  apply Forall_cons in Hall as [Hb Hl].
  destruct (sel b); [constructor|]; auto.
Qed.

(** The two passes split the files. *)
Lemma passes_partition settings (l : list string) :
  Permutation (List.filter (first_pass settings) l
               ++ List.filter (second_pass settings) l) l.
Proof.
  induction l as [|p l IH]; simpl; [constructor|].
  unfold first_pass, second_pass in *.
  destruct (markupFile settings p), (processMarkupAfterCode settings p); simpl.
  - apply Permutation_sym. apply Permutation_cons_app. by apply Permutation_sym.
  - by constructor.
  - by constructor.
  - by constructor.
Qed.

Section PreparerFacts.
Context `{Renderer} `{LongDouble} `{Engine} `{Platform} `{PathServices}.

Lemma recursiveAddFiles_ordered files path extra :
  map_ordered files -> map_ordered (recursiveAddFiles files path extra).
Proof.
  unfold recursiveAddFiles. generalize (expand path extra). intros found.
  revert files. induction found as [|f found IH]; intros files Hm; simpl; [done|].
  apply IH. by apply map_assign_ordered.
Qed.

Lemma add_pathnames_ordered settings pathnames files :
  map_ordered files -> map_ordered (add_pathnames settings pathnames files).
Proof.
  unfold add_pathnames. revert files.
  induction pathnames as [|p pathnames IH]; intros files Hm; simpl; [done|].
  apply IH. by apply recursiveAddFiles_ordered.
Qed.

Lemma erase_matching_ordered masks files :
  map_ordered files -> map_ordered (erase_matching masks files).
Proof. apply map_ordered_filter. Qed.

Lemma check_includePaths_files errorsOnly paths x :
  _files (check_includePaths errorsOnly paths x).2 = _files x.
Proof.
  revert x. induction paths as [|p paths IH]; intros x; simpl; [done|].
  destruct (isDirectory (toNativeSeparators p)).
  - specialize (IH x).
    by destruct (check_includePaths errorsOnly paths x) as [kept x'].
  - rewrite IH. by destruct (negb errorsOnly).
Qed.

Lemma print_version_and_errorlist_files parser settings e x :
  _files (print_version_and_errorlist parser settings e x).2 = _files x.
Proof.
  unfold print_version_and_errorlist.
  set (x1 := if GetShowVersion parser && negb (GetShowErrorMessages parser)
             then _ else x).
  assert (Hx1 : _files x1 = _files x).
  { subst x1. destruct (_ && _); [|done].
    by destruct (negb (String.eqb cppcheck_extraVersion EmptyString)). }
  destruct (GetShowErrorMessages parser); [|done].
  destruct (cppcheck_getErrorMessages e) as [cbs e']. simpl.
  by rewrite (reaches_files _ _ _ _ (deliver_all_reaches settings cbs _)).
Qed.

Lemma apply_exclusions_ordered parser x :
  map_ordered (_files x) -> map_ordered (_files (apply_exclusions parser x).2).
Proof.
  intros Hm. unfold apply_exclusions.
  destruct (_files x) as [|f files] eqn:Hfiles; [simpl; by rewrite Hfiles|].
  destruct (strip_header_rules (GetIgnoredPaths parser)) as [ignored warn].
  set (x1 := if warn then emit_all header_warning x else x).
  assert (Hx1 : _files x1 = f :: files).
  { subst x1. by destruct warn. }
  cbv zeta. rewrite Hx1.
  pose proof (erase_matching_ordered (GetIgnoredPaths parser) (f :: files) Hm) as Hleft.
  simpl. by destruct (erase_matching (GetIgnoredPaths parser) (f :: files)).
Qed.

(** The file set that [parseFromArgs] leaves is a map. *)
Lemma parseFromArgs_files_ordered parser settings e x :
  map_ordered (_files x) ->
  map_ordered (_files (parseFromArgs parser settings e x).2).
Proof.
  intros Hm. unfold parseFromArgs.
  destruct (ParseFromArgs parser); [|done].
  pose proof (print_version_and_errorlist_files parser settings e x) as Hv.
  destruct (print_version_and_errorlist parser settings e x) as [e1 x1].
  simpl in Hv.
  destruct (ExitAfterPrinting parser); [simpl; by rewrite Hv|].
  pose proof (check_includePaths_files (_errorsOnly settings)
                (_includePaths settings) x1) as Hi.
  destruct (check_includePaths _ _ x1) as [kept x2]. simpl in Hi.
  set (x3 := set_files _ x2).
  pose proof (apply_exclusions_ordered parser x3) as Ha.
  destruct (apply_exclusions parser x3) as [ok x4]. simpl in *.
  apply Ha. apply add_pathnames_ordered. by rewrite Hi, Hv.
Qed.

End PreparerFacts.

(** ** Sequential mode: two passes in the order of the map *)

(** C4, as the code has it.  In sequential mode the calls into the engine
    are: one [check] for each file of the first pass, then one for each file
    of the second pass, then one [checkFunctionUsage].  The second pass
    holds exactly the markup files that ask to be processed after the code,
    the first pass exactly the other files, every non-markup file among
    them: so every non-markup file is analysed before any markup file that
    asks to be processed after the code.  Within each pass the files come
    in the iteration order of the map, which is ascending path order (not
    the order of insertion).  Each file of the set is analysed exactly
    once. *)
Theorem sequential_dispatch_two_passes `{Renderer} `{LongDouble} `{Engine} `{Platform}
    (settings : Settings) (e : engine) (x : CppCheckExecutor) :
  _jobs settings = 1 ->
  map_ordered (_files x) ->
  let paths := keys (_files x) in
  let pass1 := List.filter (first_pass settings) paths in
  let pass2 := List.filter (second_pass settings) paths in
  let after_code p :=
    markupFile settings p = true ∧ processMarkupAfterCode settings p = true in
  engine_calls (trace (exec (dispatch settings e x)))
  = engine_calls (trace x) ++ map CallCheck (pass1 ++ pass2) ++ [CallFunctionUsage]
  ∧ (∀ p, p ∈ paths -> markupFile settings p = false -> p ∈ pass1)
  ∧ (∀ q, q ∈ pass2 ->
       markupFile settings q = true ∧ processMarkupAfterCode settings q = true)
  ∧ StronglySorted path_lt pass1
  ∧ StronglySorted path_lt pass2
  ∧ Permutation (pass1 ++ pass2) paths
  ∧ NoDup (pass1 ++ pass2)
  ∧ (∀ q, q ∈ pass2 ↔ q ∈ paths ∧ after_code q)
  ∧ (∀ p, p ∈ pass1 ↔ p ∈ paths ∧ ¬ after_code p)
  ∧ (∀ p q, p ∈ paths -> q ∈ paths ->
       markupFile settings p = false -> after_code q ->
       ∃ l1 l2 l3, pass1 ++ pass2 = l1 ++ p :: l2 ++ q :: l3).
Proof.
  intros Hjobs Hmap paths pass1 pass2 after_code.
  assert (Hperm : Permutation (pass1 ++ pass2) paths) by apply passes_partition.
  assert (Hpass2 : ∀ q, q ∈ pass2 ↔ q ∈ paths ∧ after_code q).
  { intros q. subst pass2 after_code. simpl.
    rewrite !list_elem_of_In, filter_In. unfold second_pass.
    by rewrite andb_true_iff. }
  assert (Hpass1 : ∀ p, p ∈ pass1 ↔ p ∈ paths ∧ ¬ after_code p).
  { intros p. subst pass1 after_code. simpl.
    rewrite !list_elem_of_In, filter_In. unfold first_pass.
    destruct (markupFile settings p), (processMarkupAfterCode settings p); simpl;
      split; intros [Hin Hsel]; split; try done; try (by intros [? ?]).
    by destruct Hsel. }
  split; [by apply dispatch_sequential_calls|].
  split.
  { intros p Hin Hmarkup. apply list_elem_of_In, filter_In.
    split; [by apply list_elem_of_In|]. unfold first_pass. by rewrite Hmarkup. }
  split.
  { intros q Hq. apply list_elem_of_In, filter_In in Hq as [_ Hsel].
    unfold second_pass in Hsel. by apply andb_prop in Hsel. }
  split; [by apply filter_sorted|].
  split; [by apply filter_sorted|].
  split; [done|].
  split; [rewrite Hperm; by apply map_ordered_NoDup|].
  split; [done|]. split; [done|].
  intros p q Hp Hq Hmarkup Hafter.
  assert (Hp1 : p ∈ pass1).
  { apply Hpass1. split; [done|]. intros [Hm _]. by rewrite Hmarkup in Hm. }
  assert (Hq2 : q ∈ pass2) by (by apply Hpass2).
  apply list_elem_of_split in Hp1 as (l1 & l2 & ->).
  apply list_elem_of_split in Hq2 as (m1 & m2 & ->).
  exists l1, (l2 ++ m1), m2. by rewrite <- !app_assoc.
Qed.

(** A markup file that sorts first is analysed last. *)
Lemma sequential_dispatch_two_passes_witness :
  let x := Sample.executor [("a.qml", 100%N); ("b.c", 50%N); ("c.qml", 10%N);
                            ("d.c", 10%N)] in
  engine_calls (trace (exec
    (@dispatch Sample.renderer Sample.exact_arithmetic (Sample.the_engine true)
       (Sample.platform true) (Sample.settings false 1 0) tt x)))
  = [CallCheck "b.c"; CallCheck "d.c"; CallCheck "a.qml"; CallCheck "c.qml";
     CallFunctionUsage].
Proof.
  intros x.
  assert (Hmap : map_ordered (_files x)) by (repeat constructor).
  exact (proj1 (sequential_dispatch_two_passes
                  (H := Sample.renderer) (H0 := Sample.exact_arithmetic)
                  (H1 := Sample.the_engine true) (H2 := Sample.platform true)
                  (Sample.settings false 1 0) tt x eq_refl Hmap)).
Defined.

(** C4 as stated fails on the order of insertion: given [b.c] and then
    [a.c], the run analyses [a.c] first. *)
Lemma analysis_order_is_not_insertion_order :
  let run := @check Sample.renderer Sample.exact_arithmetic (Sample.the_engine true)
               (Sample.platform true) Sample.paths
               (Sample.parser ["b.c"; "a.c"] []) (Sample.settings false 1 0)
               0 tt new_executor in
  analyzed (trace (snd run)) = ["a.c"; "b.c"]
  ∧ analyzed (trace (snd run)) ≠ ["b.c"; "a.c"].
Proof.
  split; [reflexivity|]. vm_compute. discriminate.
Qed.

(** ** A whole run of [check_internal] *)

Section RunFacts.
Context `{Renderer} `{LongDouble} `{Engine} `{Platform}.

Lemma before_dispatch_reaches settings now x :
  reaches (fun t => t = getXMLHeader (_xml_version settings)) is_cout
    x (before_dispatch settings now x).
Proof.
  unfold before_dispatch.
  set (x1 := if reportProgress_enabled settings then set_time1 now x else x).
  assert (Hx1 : reaches (fun t => t = getXMLHeader (_xml_version settings)) is_cout x x1).
  { subst x1. destruct (reportProgress_enabled settings); repeat constructor. }
  destruct (_xml settings); [|done].
  eapply reaches_trans; [exact Hx1|]. by apply reportErr_string_reaches.
Qed.

Lemma footer_reaches settings (x : CppCheckExecutor) :
  reaches (fun t => t = getXMLFooter (_xml_version settings)) is_cout
    x (reportErr_string (getXMLFooter (_xml_version settings)) x).
Proof. by apply reportErr_string_reaches. Qed.

(** The count that decides the exit status is the aggregate of the run. *)
Lemma run_checks_counts settings now e x :
  counts_from (aggregate_found (trace x)) (run_checks settings now e x).
Proof.
  unfold run_checks.
  set (x2 := before_dispatch settings now x).
  set (st := after_dispatch settings (dispatch settings e x2)).
  assert (Hst : counts_from (aggregate_found (trace x)) st).
  { pose proof (dispatch_counts settings e x2) as Hd.
    destruct (reaches_cout_engine _ _ _ (before_dispatch_reaches settings now x))
      as [_ Hx2]. fold x2 in Hx2. rewrite Hx2 in Hd.
    destruct (after_dispatch_calls settings (dispatch settings e x2))
      as (Hrv & Hagg & _).
    unfold counts_from in *. subst st. by rewrite Hrv, Hagg. }
  destruct (_xml settings); [|done].
  unfold counts_from in *. simpl.
  destruct (reaches_cout_engine _ _ _ (footer_reaches settings (exec st))) as [_ ->].
  done.
Qed.

Lemma run_checks_calls settings now e x :
  engine_calls (trace (exec (run_checks settings now e x)))
  = engine_calls (trace (exec (dispatch settings e (before_dispatch settings now x))))
    ++ (if checkConfiguration settings then [] else [CallTooManyConfigs]).
Proof.
  unfold run_checks.
  set (st := after_dispatch settings _).
  destruct (after_dispatch_calls settings
              (dispatch settings e (before_dispatch settings now x)))
    as (_ & _ & Hcalls).
  fold st in Hcalls.
  destruct (_xml settings); [|done]. simpl.
  destruct (reaches_cout_engine _ _ _ (footer_reaches settings (exec st))) as [-> _].
  done.
Qed.

End RunFacts.

(** The texts of the error channel among events that are steps of the sink. *)
Lemma cerr_lines_Forall (Q : string -> Prop) (E : event -> Prop) tr :
  Forall (fun e => match e with Cerr t => Q t | _ => E e end) tr ->
  Forall Q (cerr_lines tr).
Proof.
  induction 1 as [|e tr He _ IH]; [constructor|].
  unfold cerr_lines in *. destruct e; simpl; auto.
Qed.

(** ** The exit status *)

(** C2, as the code has it.  When the configuration is loaded, the exit
    status is the configured exit code if the aggregate defect count of the
    run, as accumulated in the [unsigned int], is not zero, and zero
    otherwise; so it is non-zero exactly when that count and the configured
    exit code are both non-zero.  When the configuration cannot be loaded
    the exit status is [EXIT_FAILURE]. *)
Theorem exit_status_follows_aggregate `{Renderer} `{LongDouble} `{Engine} `{Platform}
    (settings : Settings) (now : Z) (e : engine) (x : CppCheckExecutor) :
  let run := check_internal settings now e x in
  let aggregate :=
    (aggregate_found (trace run.2) - aggregate_found (trace x)) mod UINT_MODULUS in
  if (load_configuration settings e).1.1 && (load_configuration settings e).1.2
  then run.1.1 = (if aggregate =? 0 then 0 else _exitCode settings)
       ∧ (run.1.1 ≠ 0 ↔ aggregate ≠ 0 ∧ _exitCode settings ≠ 0)
  else run.1.1 = EXIT_FAILURE.
Proof.
  unfold check_internal.
  destruct (load_configuration settings e) as [[std posix] e1]. simpl.
  destruct std, posix; simpl; try reflexivity.
  pose proof (run_checks_counts settings now e1 x) as Hc. unfold counts_from in Hc.
  rewrite <- Hc.
  split; [done|].
  destruct (returnValue (run_checks settings now e1 x) =? 0) eqn:Hz.
  - apply Z.eqb_eq in Hz. split; [done|]. intros [Hne _]. by destruct Hne.
  - apply Z.eqb_neq in Hz. split; [by split|]. by intros [_ Hne].
Qed.

(** C2 as stated fails with the exit code left at zero: ten defects are
    found and the exit status is zero. *)
Lemma defects_found_but_exit_status_zero :
  let run := @check_internal Sample.renderer Sample.exact_arithmetic
               (Sample.the_engine true) (Sample.platform true)
               (Sample.settings false 1 0) 0 tt
               (Sample.executor [("a.c", 100%N); ("b.c", 50%N)]) in
  aggregate_found (trace run.2) = 10
  ∧ run.1.1 = 0
  ∧ ¬ (run.1.1 ≠ 0 ↔ aggregate_found (trace run.2) ≠ 0).
Proof.
  split; [reflexivity|]. split; [reflexivity|].
  vm_compute. intros [_ Himp]. apply Himp; [discriminate|reflexivity].
Qed.

Section RunFacts2.
Context `{Renderer} `{LongDouble} `{Engine} `{Platform}.

(** What follows the dispatch adds texts to the streams and one call of
    [tooManyConfigsError]; it neither analyses nor counts. *)
Lemma run_checks_after_dispatch settings now e x :
  let st := dispatch settings e (before_dispatch settings now x) in
  returnValue (run_checks settings now e x) = returnValue st
  ∧ aggregate_found (trace (exec (run_checks settings now e x)))
    = aggregate_found (trace (exec st))
  ∧ ∃ tr, trace (exec (run_checks settings now e x)) = trace (exec st) ++ tr.
Proof.
  intros st. unfold run_checks. fold st.
  destruct (after_dispatch_calls settings st) as (Hrv & Hagg & _).
  destruct (reaches_trace _ _ _ _ (after_dispatch_reaches settings st)) as [tr [Htr _]].
  destruct (_xml settings).
  - simpl.
    destruct (reaches_cout_engine _ _ _
                (footer_reaches settings (exec (after_dispatch settings st))))
      as [_ ->].
    destruct (reaches_trace _ _ _ _
                (footer_reaches settings (exec (after_dispatch settings st))))
      as [tr' [-> _]].
    split; [done|]. split; [done|]. exists (tr ++ tr'). by rewrite Htr, app_assoc.
  - split; [done|]. split; [done|]. by exists tr.
Qed.

End RunFacts2.

(** ** Structured output *)

(** C7, as the code has it.  In a structured-mode run whose configuration
    is loaded, and that starts with nothing on the error channel, the error
    channel carries the header first, the footer last, and between them
    rendered diagnostics only, among which neither the header nor the
    footer occurs; there may be none.  (The footer, like every text, passes
    the SeenSet: the renderer must not render a diagnostic, or the header,
    to the text of the footer.) *)
Theorem xml_run_is_bracketed `{Renderer} `{LongDouble} `{Engine} `{Platform}
    (settings : Settings) (now : Z) (e e1 : engine) (x : CppCheckExecutor) :
  _xml settings = true ->
  load_configuration settings e = (true, true, e1) ->
  sink_consistent x ->
  cerr_lines (trace x) = [] ->
  getXMLFooter (_xml_version settings) ≠ getXMLHeader (_xml_version settings) ->
  (∀ msg, render settings msg ≠ getXMLFooter (_xml_version settings)) ->
  ∃ mid,
    cerr_lines (trace (check_internal settings now e x).2)
    = getXMLHeader (_xml_version settings) :: mid
      ++ [getXMLFooter (_xml_version settings)]
    ∧ (getXMLHeader (_xml_version settings) ∉ mid)
    ∧ (getXMLFooter (_xml_version settings) ∉ mid)
    ∧ Forall (rendered settings) mid.
Proof.
  intros Hxml Hload Hx Hnone Hfh Hrender.
  set (header := getXMLHeader (_xml_version settings)) in *.
  set (footer := getXMLFooter (_xml_version settings)) in *.
  unfold check_internal. rewrite Hload. simpl. unfold run_checks. rewrite Hxml. simpl.
  set (x2 := before_dispatch settings now x).
  set (st := after_dispatch settings (dispatch settings e1 x2)).
  (* the header is written *)
  assert (Hx2 : cerr_lines (trace x2) = [header] ∧ sink_consistent x2).
  { split.
    - subst x2. unfold before_dispatch. rewrite Hxml. fold header.
      set (x1 := if reportProgress_enabled settings then set_time1 now x else x).
      assert (Hx1 : _errorList x1 = _errorList x ∧ trace x1 = trace x).
      { subst x1. by destruct (reportProgress_enabled settings). }
      destruct Hx1 as [Hel Htr].
      rewrite reportErr_string_new.
      + simpl. rewrite cerr_lines_app, Htr, Hnone. done.
      + rewrite Hel. intros Hin. apply Hx in Hin. rewrite Hnone in Hin.
        by apply not_elem_of_nil in Hin.
    - eapply reaches_consistent; [apply before_dispatch_reaches | done]. }
  destruct Hx2 as [Hhead Hcons2].
  (* the dispatch and what follows write rendered diagnostics *)
  assert (Hr : reaches (rendered settings) any_event x2 (exec st)).
  { eapply reaches_trans; [apply dispatch_reaches | apply after_dispatch_reaches]. }
  destruct (reaches_trace _ _ _ _ Hr) as [tr [Htr Hall]].
  apply cerr_lines_Forall in Hall.
  pose proof (reaches_consistent _ _ _ _ Hr Hcons2) as [Hnd Hiff].
  rewrite Htr, cerr_lines_app, Hhead in Hnd, Hiff.
  assert (Hfooter : footer ∉ cerr_lines tr).
  { intros Hin. eapply Forall_forall in Hall; [|exact Hin].
    destruct Hall as [msg Hmsg]. by apply (Hrender msg). }
  exists (cerr_lines tr).
  split; [|split; [|split]]; [| |done|done].
  - rewrite reportErr_string_new.
    + simpl. rewrite cerr_lines_app, Htr, cerr_lines_app, Hhead. simpl. done.
    + rewrite Hiff. simpl. rewrite elem_of_cons. intros [Heq|Hin]; auto.
  - simpl in Hnd. by apply NoDup_cons in Hnd as [? _].
Qed.

Lemma xml_run_is_bracketed_witness :
  cerr_lines (trace
    (@check_internal Sample.renderer Sample.exact_arithmetic (Sample.the_engine true)
       (Sample.platform true) (Sample.settings true 1 0) 0 tt
       (Sample.executor [("a.c", 100%N); ("b.c", 50%N)])).2)
  = [ "<results version=2>";
      "<error id=nullPointer msg=Null pointer dereference at=[a.c:3]/>";
      "</results>" ]
  ∧ ∃ mid,
      cerr_lines (trace
        (@check_internal Sample.renderer Sample.exact_arithmetic (Sample.the_engine true)
           (Sample.platform true) (Sample.settings true 1 0) 0 tt
           (Sample.executor [("a.c", 100%N); ("b.c", 50%N)])).2)
      = "<results version=2>" :: mid ++ ["</results>"]
      ∧ ("<results version=2>" ∉ mid)
      ∧ ("</results>" ∉ mid)
      ∧ Forall (@rendered Sample.renderer (Sample.settings true 1 0)) mid.
Proof.
  split; [reflexivity|].
  apply (xml_run_is_bracketed (H := Sample.renderer) (H0 := Sample.exact_arithmetic)
           (H1 := Sample.the_engine true) (H2 := Sample.platform true)
           (Sample.settings true 1 0) 0 tt tt
           (Sample.executor [("a.c", 100%N); ("b.c", 50%N)])).
  - reflexivity.
  - reflexivity.
  - exact new_executor_consistent.
  - reflexivity.
  - simpl. discriminate.
  - intros msg. unfold render. simpl. discriminate.
Defined.

(** C7 as stated fails when the configuration cannot be loaded: the
    structured-mode run then writes one diagnostic on the error channel,
    with neither header nor footer. *)
Lemma xml_run_without_header_or_footer :
  let run := @check_internal Sample.renderer Sample.exact_arithmetic
               (Sample.the_engine false) (Sample.platform true)
               (Sample.settings true 1 0) 0 tt
               (Sample.executor [("a.c", 100%N)]) in
  length (cerr_lines (trace run.2)) = 1%nat
  ∧ (@getXMLHeader Sample.renderer 2 ∉ cerr_lines (trace run.2))
  ∧ (@getXMLFooter Sample.renderer 2 ∉ cerr_lines (trace run.2)).
Proof.
  split; [reflexivity|].
  split; vm_compute; intros Hin; apply list_elem_of_singleton in Hin; discriminate.
Qed.

(** ** No worker pool *)

(** C8, as the code has it.  When more than one worker is requested, the
    parallel executor is not enabled and the configuration is loaded, the
    dispatcher writes the message to the status channel and does nothing
    else: the engine is left as it was, no file is analysed, the parallel
    executor is not run, the aggregate defect count is zero, and the exit
    status of the run is zero. *)
Theorem no_worker_pool_no_analysis `{Renderer} `{LongDouble} `{Engine} `{Platform}
    (settings : Settings) (now : Z) (e e1 : engine) (x : CppCheckExecutor) :
  1 < _jobs settings ->
  ThreadExecutor_isEnabled = false ->
  load_configuration settings e = (true, true, e1) ->
  let x2 := before_dispatch settings now x in
  let st := dispatch settings e1 x2 in
  let run := check_internal settings now e x in
  exec st = emit (Cout "No thread support yet implemented for this platform.") x2
  ∧ eng st = e1
  ∧ returnValue st = 0
  ∧ Cout "No thread support yet implemented for this platform." ∈ trace run.2
  ∧ engine_calls (trace run.2)
    = engine_calls (trace x)
      ++ (if checkConfiguration settings then [] else [CallTooManyConfigs])
  ∧ aggregate_found (trace run.2) = aggregate_found (trace x)
  ∧ run.1.1 = 0.
Proof.
  intros Hjobs Hno Hload x2 st run.
  assert (Hst : st = with_exec
            (emit (Cout "No thread support yet implemented for this platform.") x2)
            {| returnValue := 0; processedsize := 0%N; c := 0; eng := e1; exec := x2 |}).
  { subst st. unfold dispatch.
    destruct (_jobs settings =? 1) eqn:Hone; [apply Z.eqb_eq in Hone; lia|].
    by rewrite Hno. }
  assert (Hrun : run = (if returnValue (run_checks settings now e1 x) =? 0
                        then 0 else _exitCode settings,
                        eng (run_checks settings now e1 x),
                        exec (run_checks settings now e1 x))).
  { subst run. unfold check_internal. by rewrite Hload. }
  destruct (run_checks_after_dispatch settings now e1 x) as (Hrv & Hagg & tr & Htr).
  fold x2 in Hrv, Hagg, Htr. fold st in Hrv, Hagg, Htr.
  destruct (reaches_cout_engine _ _ _ (before_dispatch_reaches settings now x))
    as [Hcalls2 Hagg2]. fold x2 in Hcalls2, Hagg2.
  split; [by rewrite Hst|]. split; [by rewrite Hst|]. split; [by rewrite Hst|].
  rewrite Hrun. simpl.
  split; [|split; [|split]].
  - rewrite Htr, Hst. simpl. apply elem_of_app. left. apply elem_of_app. right.
    by apply list_elem_of_singleton.
  - rewrite run_checks_calls. fold x2. fold st. rewrite Hst. simpl.
    rewrite engine_calls_app, Hcalls2. simpl. by rewrite app_nil_r.
  - rewrite Hagg, Hst. simpl. rewrite aggregate_found_app, Hagg2. simpl. lia.
  - rewrite Hrv, Hst. reflexivity.
Qed.

Lemma no_worker_pool_no_analysis_witness :
  let run := @check_internal Sample.renderer Sample.exact_arithmetic
               (Sample.the_engine true) (Sample.platform false)
               (Sample.settings false 4 1) 0 tt
               (Sample.executor [("a.c", 100%N); ("b.c", 50%N)]) in
  trace run.2 = [Cout "No thread support yet implemented for this platform.";
                 TooManyConfigs]
  ∧ run.1.1 = 0.
Proof.
  split; [reflexivity|].
  apply (no_worker_pool_no_analysis (H := Sample.renderer)
           (H0 := Sample.exact_arithmetic) (H1 := Sample.the_engine true)
           (H2 := Sample.platform false) (Sample.settings false 4 1) 0 tt tt
           (Sample.executor [("a.c", 100%N); ("b.c", 50%N)])).
  - reflexivity.
  - reflexivity.
  - reflexivity.
Defined.

(** C8 as stated fails for a run whose configuration cannot be loaded:
    [check_internal] returns before the dispatch, the message is not
    written and the exit status is [EXIT_FAILURE]. *)
Lemma no_worker_pool_and_no_configuration :
  let run := @check_internal Sample.renderer Sample.exact_arithmetic
               (Sample.the_engine false) (Sample.platform false)
               (Sample.settings false 4 1) 0 tt
               (Sample.executor [("a.c", 100%N); ("b.c", 50%N)]) in
  cout_lines (trace run.2) = []
  ∧ run.1.1 = 1
  ∧ ¬ (Cout "No thread support yet implemented for this platform." ∈ trace run.2
       ∧ run.1.1 = 0).
Proof.
  split; [reflexivity|]. split; [reflexivity|].
  vm_compute. intros [_ Hzero]. discriminate Hzero.
Qed.

(** ** Exclusion rules that target headers *)

Section ExclusionFacts.
Context `{Renderer} `{LongDouble} `{Engine} `{Platform} `{PathServices}.

(** The loop of lines 123-130 filters the copy and sets [warn] when it
    erased a rule. *)
Lemma strip_header_rules_spec ignored :
  strip_header_rules ignored
  = (List.filter (fun i => negb (is_header_extension (getFilenameExtension i))) ignored,
     existsb (fun i => is_header_extension (getFilenameExtension i)) ignored).
Proof.
  induction ignored as [|i rest IH]; simpl; [done|].
  rewrite IH. by destruct (is_header_extension (getFilenameExtension i)).
Qed.

Lemma erase_matching_drops masks files path :
  PathMatch_Match masks caseSensitive path = true ->
  path ∉ keys (erase_matching masks files).
Proof.
  intros Hmatch Hin. unfold keys, erase_matching in Hin.
  apply list_elem_of_In, in_map_iff in Hin as [f [Hf Hin]].
  apply filter_In in Hin as [_ Hkeep]. subst path.
  by rewrite Hmatch in Hkeep.
Qed.

End ExclusionFacts.

(** C1, on the code.  A rule of the ignored-path list whose extension is
    [.h] or [.hpp] is erased from the local copy [ignored], and the warning
    is written once; but the matcher is built from the list of the parser,
    so a file that the rule matches is erased from the file set all the
    same. *)
Theorem header_rule_still_excludes `{Renderer} `{LongDouble} `{Engine} `{Platform}
    `{PathServices} (parser : CmdLineParser) (x : CppCheckExecutor)
    (rule path : string) :
  path ∈ keys (_files x) ->
  rule ∈ GetIgnoredPaths parser ->
  is_header_extension (getFilenameExtension rule) = true ->
  mask_matches caseSensitive rule path = true ->
  let x' := (apply_exclusions parser x).2 in
  (rule ∉ (strip_header_rules (GetIgnoredPaths parser)).1)
  ∧ (∃ rest, trace x' = trace x ++ header_warning ++ rest
             ∧ Forall (fun e => e ∉ header_warning) rest)
  ∧ (path ∉ keys (_files x')).
Proof.
  intros Hpath Hrule Hext Hmatch x'.
  assert (Hwarn : (strip_header_rules (GetIgnoredPaths parser)).2 = true).
  { rewrite strip_header_rules_spec. simpl. apply existsb_exists.
    exists rule. split; [by apply list_elem_of_In | done]. }
  assert (Hall : PathMatch_Match (GetIgnoredPaths parser) caseSensitive path = true).
  { unfold PathMatch_Match. apply existsb_exists.
    exists rule. split; [by apply list_elem_of_In | done]. }
  split.
  { rewrite strip_header_rules_spec. simpl. intros Hin.
    apply list_elem_of_In, filter_In in Hin as [_ Hkeep]. by rewrite Hext in Hkeep. }
  subst x'. unfold apply_exclusions.
  destruct (_files x) as [|f files] eqn:Hfiles.
  { by apply not_elem_of_nil in Hpath. }
  destruct (strip_header_rules (GetIgnoredPaths parser)) as [ignored warn].
  simpl in Hwarn. subst warn. simpl. rewrite Hfiles.
  pose proof (erase_matching_drops (GetIgnoredPaths parser) (f :: files) path Hall)
    as Hgone.
  destruct (erase_matching (GetIgnoredPaths parser) (f :: files))
    as [|g remaining] eqn:Hleft; simpl.
  - split; [|done].
    exists [Cout "cppcheck: error: no files to check - all paths ignored."].
    split; [by rewrite <- !app_assoc|].
    constructor; [|constructor].
    intros Hin. repeat (apply elem_of_cons in Hin as [Hin|Hin]; [discriminate|]).
    by apply not_elem_of_nil in Hin.
  - split; [|done].
    exists []. split; [by rewrite <- !app_assoc|constructor].
Qed.

Lemma header_rule_still_excludes_witness :
  let x := Sample.executor [("a.c", 100%N); ("x.h", 100%N)] in
  let x' := (@apply_exclusions Sample.platform_linux Sample.paths
               (Sample.parser ["a.c"; "x.h"] ["x.h"]) x).2 in
  keys (_files x') = ["a.c"]
  ∧ ("x.h" ∉ keys (_files x')).
Proof.
  split; [reflexivity|].
  apply (header_rule_still_excludes (H := Sample.renderer)
           (H0 := Sample.exact_arithmetic) (H1 := Sample.the_engine true)
           (H2 := Sample.platform_linux) (H3 := Sample.paths)
           (Sample.parser ["a.c"; "x.h"] ["x.h"])
           (Sample.executor [("a.c", 100%N); ("x.h", 100%N)]) "x.h" "x.h").
  - apply elem_of_cons. right. apply elem_of_cons. by left.
  - apply elem_of_cons. by left.
  - reflexivity.
  - reflexivity.
Defined.

(** ** The fault handler *)

Lemma defined_USE_UNIX_SIGNAL_SUPPORT (predefined : macros) :
  defined predefined "USE_UNIX_SIGNAL_SUPPORT" = predefined "USE_UNIX_SIGNAL_SUPPORT".
Proof.
  unfold defined. simpl.
  destruct (predefined "USE_UNIX_SIGNAL_SUPPORT"); [done|].
  by destruct (USE_UNIX_SIGNAL_HANDLING predefined).
Qed.

Section FaultFacts.
Context `{Runtime} `{Platform}.

(** Only a user interrupt switches the call stack off. *)
Lemma describe_signal_callstack signo info :
  signo ≠ SIGINT -> (describe_signal signo info).2 = true.
Proof.
  intros Hint. unfold describe_signal. simpl.
  destruct (signo =? SIGBUS); [done|].
  destruct (signo =? SIGFPE); [done|].
  destruct (signo =? SIGILL); [done|].
  destruct (signo =? SIGINT) eqn:Heq; [by apply Z.eqb_eq in Heq|].
  by destruct (signo =? SIGSEGV).
Qed.

Lemma describe_signal_interrupt info :
  SIGINT ≠ SIGBUS -> SIGINT ≠ SIGFPE -> SIGINT ≠ SIGILL ->
  (describe_signal SIGINT info).2 = false.
Proof.
  intros Hbus Hfpe Hill. unfold describe_signal. simpl.
  apply Z.eqb_neq in Hbus, Hfpe, Hill. rewrite Hbus, Hfpe, Hill.
  by rewrite Z.eqb_refl.
Qed.

(** The handler writes to the stream chosen at line 298, whatever it writes. *)
Lemma CppcheckSignalHandler_stream predefined exceptionOutput stack signo info :
  (CppcheckSignalHandler predefined exceptionOutput stack signo info).1
  = exception_stream exceptionOutput.
Proof.
  unfold CppcheckSignalHandler.
  destruct (describe_signal signo info) as [detail [|]]; [|done].
  by destruct (print_stacktrace predefined stack true).
Qed.

(** The body of [print_stacktrace], when it is compiled: one line for each
    symbol from the fourth on, of at most 32. *)
Lemma print_frames_length demangling offset i symbols texts :
  print_frames demangling offset i symbols = Some texts ->
  length texts = length symbols.
Proof.
  revert i texts. induction symbols as [|s symbols IH]; intros i texts; simpl.
  - by intros [= <-].
  - destruct (print_frame demangling _ s); [|done].
    destruct (print_frames demangling offset (S i) symbols) eqn:Hrest; [|done].
    intros [= <-]. simpl. f_equal. by eapply IH.
Qed.

Lemma print_stacktrace_depth predefined stack demangling texts :
  print_stacktrace predefined stack demangling = Some texts ->
  (length texts <= 1 + (32 - 3))%nat.
Proof.
  unfold print_stacktrace.
  destruct (defined predefined "USE_UNIX_SIGNAL_SUPPORT").
  - destruct (backtrace_symbols (firstn 32 stack)) as [symbols|].
    + destruct (length symbols =? length (firstn 32 stack))%nat eqn:Hlen; [|done].
      apply Nat.eqb_eq in Hlen.
      destruct (print_frames demangling 3 3 (skipn 3 symbols)) as [frames|] eqn:Hframes;
        [|done].
      intros [= <-]. apply print_frames_length in Hframes. simpl.
      rewrite Hframes, length_skipn, Hlen, length_firstn. lia.
    + intros [= <-]. simpl. lia.
  - intros [= <-]. simpl. lia.
Qed.

End FaultFacts.

(** C3, on the code.  For a fault that is not a user interrupt the handler
    does call [print_stacktrace], but the body of that function is compiled
    only under [USE_UNIX_SIGNAL_SUPPORT], a macro that this file never
    defines (it defines [USE_UNIX_SIGNAL_HANDLING]): unless the build
    defines it, no return address is captured and no frame is written, and
    the report goes from the description of the fault straight to its last
    line. *)
Theorem stacktrace_is_compiled_out `{Runtime} `{Platform} (predefined : macros)
    (exceptionOutput : string) (stack : list Z) (signo : Z) (info : siginfo_t) :
  predefined "USE_UNIX_SIGNAL_SUPPORT" = false ->
  signo ≠ SIGINT ->
  print_stacktrace predefined stack true = Some []
  ∧ (CppcheckSignalHandler predefined exceptionOutput stack signo info).2
    = Some (["Internal error: cppcheck received signal "; signal_name signo;
             ", "; strsignal signo]
            ++ (describe_signal signo info).1 ++ [please_report]).
Proof.
  intros Hundef Hint.
  assert (Hnone : print_stacktrace predefined stack true = Some []).
  { unfold print_stacktrace. by rewrite defined_USE_UNIX_SIGNAL_SUPPORT, Hundef. }
  split; [done|].
  unfold CppcheckSignalHandler. rewrite Hnone.
  pose proof (describe_signal_callstack signo info Hint) as Hcall.
  destruct (describe_signal signo info) as [detail call]. simpl in Hcall. subst call.
  simpl. done.
Qed.

Lemma stacktrace_is_compiled_out_witness :
  (@CppcheckSignalHandler Sample.runtime Sample.platform_linux Sample.gcc_linux
     EmptyString [4198400; 4198500; 4198600; 4198700; 4198800] 11
     {| si_code := 1; si_addr := 0 |}).2
  = Some [ "Internal error: cppcheck received signal "; "SIGSEGV"; ", ";
           "Segmentation fault"; " - SEGV_MAPERR";
           String.append " (at 0x0x0)." newline; please_report ]
  ∧ @print_stacktrace Sample.runtime Sample.platform_linux Sample.gcc_linux
      [4198400; 4198500; 4198600; 4198700; 4198800] true = Some [].
Proof.
  split; [reflexivity|].
  apply (stacktrace_is_compiled_out (H := Sample.runtime) (H0 := Sample.platform_linux)
           Sample.gcc_linux EmptyString
           [4198400; 4198500; 4198600; 4198700; 4198800] 11
           {| si_code := 1; si_addr := 0 |}).
  - reflexivity.
  - simpl. discriminate.
Defined.

(** C9. The signal handler writes its report to [stderr] exactly when the
    process-wide exception output is the string [stderr]; in every other
    state, the initial empty string included, it writes to [stdout].  The
    string is whatever [setExceptionOutput] stored last. *)
Theorem fault_report_stream `{Runtime} `{Platform} (predefined : macros)
    (s : statics) (fn : string) (stack : list Z) (signo : Z) (info : siginfo_t) :
  let handler out := (CppcheckSignalHandler predefined out stack signo info).1 in
  (handler (getExceptionOutput s) = stderr ↔ getExceptionOutput s = "stderr")
  ∧ (handler (getExceptionOutput s) = stdout ↔ getExceptionOutput s ≠ "stderr")
  ∧ handler (getExceptionOutput initial_statics) = stdout
  ∧ getExceptionOutput initial_statics = EmptyString
  ∧ getExceptionOutput (setExceptionOutput fn s) = fn.
Proof.
  intros handler. subst handler. simpl.
  rewrite !CppcheckSignalHandler_stream. unfold exception_stream.
  split; [|split; [|done]].
  - destruct (String.eqb_spec (getExceptionOutput s) "stderr") as [Heq|Hne].
    + done.
    + split; [discriminate|done].
  - destruct (String.eqb_spec (getExceptionOutput s) "stderr") as [Heq|Hne].
    + split; [discriminate|done].
    + done.
Qed.

(** ** Scenarios *)

(** Two files, [a.c] with ten defects and [b.c] with none, one worker, not
    quiet, exit code 7: two status lines, an aggregate of ten, exit status 7. *)
Example two_files_one_worker :
  let run := @check Sample.renderer Sample.exact_arithmetic (Sample.the_engine true)
               Sample.platform_linux Sample.paths
               (Sample.parser ["a.c"; "b.c"] []) (Sample.settings false 1 7)
               0 tt new_executor in
  cout_lines (trace run.2)
  = ["1/2 files checked 50% done"; "2/2 files checked 100% done"]
  ∧ aggregate_found (trace run.2) = 10
  ∧ run.1.1 = 7.
Proof. repeat split; reflexivity. Qed.

(** An include path that is not a directory: a warning, the path is gone
    from the settings, and the run goes on. *)
Example missing_include_path :
  let run := @parseFromArgs Sample.renderer Sample.exact_arithmetic
               (Sample.the_engine true) Sample.platform_linux Sample.paths
               (Sample.parser ["a.c"] [])
               (set_includePaths ["nowhere"; "include"] (Sample.settings false 1 0))
               tt new_executor in
  run.1.1.1 = true
  ∧ _includePaths run.1.1.2 = ["include"]
  ∧ cout_lines (trace run.2)
    = ["cppcheck: warning: Couldn't find path given by -I 'nowhere'"]
  ∧ keys (_files run.2) = ["a.c"].
Proof. repeat split; reflexivity. Qed.

(** No file found, and every file excluded: two different failures. *)
Example no_input_and_all_excluded :
  let prepare pathnames ignored :=
    @parseFromArgs Sample.renderer Sample.exact_arithmetic
      (Sample.the_engine true) Sample.platform_linux Sample.paths
      (Sample.parser pathnames ignored) (Sample.settings false 1 0)
      tt new_executor in
  ((prepare [] []).1.1.1 = false
   ∧ cout_lines (trace (prepare [] []).2)
     = ["cppcheck: error: could not find or open any of the paths given."])
  ∧ ((prepare ["a.c"] ["a.c"]).1.1.1 = false
     ∧ cout_lines (trace (prepare ["a.c"] ["a.c"]).2)
       = ["cppcheck: error: no files to check - all paths ignored."]).
Proof. repeat split; reflexivity. Qed.

(** What the body of [print_stacktrace] writes in a build that does define
    [USE_UNIX_SIGNAL_SUPPORT]: the three innermost frames are skipped, a
    name that demangles is printed demangled, and one that does not is
    printed as the runtime gave it. *)
Example stacktrace_when_compiled :
  let with_support : macros :=
    fun name => Sample.gcc_linux name || String.eqb name "USE_UNIX_SIGNAL_SUPPORT" in
  let unknown : Runtime := {|
    SIGBUS := 7; SIGFPE := 8; SIGILL := 4; SIGINT := 2; SIGSEGV := 11;
    BUS_ADRALN := 1; BUS_ADRERR := 2; BUS_OBJERR := 3;
    BUS_MCEERR_AR := None; BUS_MCEERR_AO := None;
    FPE_INTDIV := 1; FPE_INTOVF := 2; FPE_FLTDIV := 3; FPE_FLTOVF := 4;
    FPE_FLTUND := 5; FPE_FLTRES := 6; FPE_FLTINV := 7; FPE_FLTSUB := 8;
    ILL_ILLOPC := 1; ILL_ILLOPN := 2; ILL_ILLADR := 3; ILL_ILLTRP := 4;
    ILL_PRVOPC := 5; ILL_PRVREG := 6; ILL_COPROC := 7; ILL_BADSTK := 8;
    SEGV_MAPERR := 1; SEGV_ACCERR := 2;
    strsignal := fun _ => "Segmentation fault";
    format_pointer := fun a => String.append "0x" (Sample.hex a);
    backtrace_symbols := fun addresses =>
      Some (map (fun a => String.append "./cppcheck(main+0x2a) [0x"
                            (String.append (Sample.hex a) "]")) addresses);
    cxa_demangle := fun _ => None |} in
  @print_stacktrace Sample.runtime Sample.platform_linux with_support
    [1; 2; 3; 4198400; 4198500] true
  = Some [ String.append "Callstack:" newline;
           String.append "#0  0x000000401000 in CppCheck::check(std::string const&)" newline;
           String.append "#1  0x000000401064 in CppCheck::check(std::string const&)" newline ]
  ∧ @print_stacktrace unknown Sample.platform_linux with_support
      [1; 2; 3; 4198400] true
    = Some [ String.append "Callstack:" newline;
             String.append "#0  0x000000401000 in ./cppcheck(main+0x2a) " newline ].
Proof. split; reflexivity. Qed.

(** * Further properties of the driver *)

(** ** The file-set preparer *)

Lemma stdout_only_refl x : stdout_only x x.
Proof.
  split; [done|]. exists []. by rewrite app_nil_r.
Qed.

Lemma stdout_only_trans x y z : stdout_only x y -> stdout_only y z -> stdout_only x z.
Proof.
  intros [Hxy (tr1 & Htr1 & H1)] [Hyz (tr2 & Htr2 & H2)].
  split; [congruence|]. exists (tr1 ++ tr2).
  split; [by rewrite Htr2, Htr1, app_assoc|]. by apply Forall_app.
Qed.

Lemma stdout_only_emit e x : is_stdout e -> stdout_only x (emit e x).
Proof.
  intros He. split; [done|]. exists [e]. split; [done|]. by constructor.
Qed.

(** Standard output changes neither the error stream nor the calls made. *)
Lemma stdout_only_silent x x' :
  stdout_only x x' ->
  cerr_lines (trace x') = cerr_lines (trace x)
  ∧ engine_calls (trace x') = engine_calls (trace x).
Proof.
  intros [_ (tr & -> & Hall)].
  rewrite cerr_lines_app, engine_calls_app.
  assert (Hnone : cerr_lines tr = [] ∧ engine_calls tr = []).
  { induction Hall as [|e tr [Hc He] _ [IH1 IH2]]; [done|].
    unfold cerr_lines, engine_calls in *. simpl. by rewrite Hc, He. }
  destruct Hnone as [-> ->]. by rewrite !app_nil_r.
Qed.

(** In [--errorlist] mode nothing that the engine reports reaches the
    error stream or the SeenSet. *)
Lemma reaches_nothing_stdout_only x x' :
  reaches (fun _ => False) is_cout x x' -> stdout_only x x'.
Proof.
  induction 1 as [x|x x' e _ IH [t ->] _|x x' t _ IH|x x' t _ IH []].
  - apply stdout_only_refl.
  - eapply stdout_only_trans; [exact IH|]. apply stdout_only_emit; by split.
  - destruct IH as [Hel Htr]. by split.
Qed.

Section ErrorListFacts.
Context `{Renderer} `{LongDouble}.

Lemma deliver_errorlist_reaches settings cb x :
  errorlist x = true ->
  reaches (fun _ => False) is_cout x (deliver settings cb x).
Proof.
  intros Hel. destruct cb; simpl.
  - apply reportOut_reaches.
  - unfold reportErr. rewrite Hel. apply reportOut_reaches.
  - apply reportProgress_reaches.
  - unfold reportInfo, reportErr. rewrite Hel. apply reportOut_reaches.
  - apply reportStatus_reaches.
Qed.

Lemma deliver_all_errorlist_reaches settings cbs x :
  errorlist x = true ->
  reaches (fun _ => False) is_cout x (deliver_all settings cbs x).
Proof.
  revert x. induction cbs as [|cb cbs IH]; intros x Hel; [constructor|].
  change (deliver_all settings (cb :: cbs) x)
    with (deliver_all settings cbs (deliver settings cb x)).
  pose proof (deliver_errorlist_reaches settings cb x Hel) as Hcb.
  eapply reaches_trans; [exact Hcb|]. apply IH.
  by rewrite (reaches_errorlist _ _ _ _ Hcb).
Qed.

End ErrorListFacts.

Section PreparerMore.
Context `{Renderer} `{LongDouble} `{Engine} `{Platform} `{PathServices}.

Lemma check_includePaths_stdout_only errorsOnly paths x :
  stdout_only x (check_includePaths errorsOnly paths x).2.
Proof.
  revert x. induction paths as [|p paths IH]; intros x; simpl.
  - apply stdout_only_refl.
  - destruct (isDirectory (toNativeSeparators p)).
    + specialize (IH x).
      by destruct (check_includePaths errorsOnly paths x) as [kept x'].
    + eapply stdout_only_trans; [|apply IH].
      destruct (negb errorsOnly); [apply stdout_only_emit; by split|apply stdout_only_refl].
Qed.

Lemma print_version_and_errorlist_stdout_only parser settings e x :
  stdout_only x (print_version_and_errorlist parser settings e x).2.
Proof.
  unfold print_version_and_errorlist.
  set (x1 := if GetShowVersion parser && negb (GetShowErrorMessages parser)
             then _ else x).
  assert (Hx1 : stdout_only x x1).
  { subst x1. destruct (_ && _); [|apply stdout_only_refl].
    destruct (negb (String.eqb cppcheck_extraVersion EmptyString));
      apply stdout_only_emit; by split. }
  destruct (GetShowErrorMessages parser); [|done].
  destruct (cppcheck_getErrorMessages e) as [cbs e']. simpl.
  eapply stdout_only_trans; [exact Hx1|].
  eapply stdout_only_trans.
  { eapply stdout_only_trans with (y := set_errorlist true x1).
    - split; [done|]. exists []. by rewrite app_nil_r.
    - apply (stdout_only_emit (CoutNoEndl (getXMLHeader (_xml_version settings)))).
      by split. }
  eapply stdout_only_trans.
  { apply reaches_nothing_stdout_only.
    by apply (deliver_all_errorlist_reaches settings cbs). }
  apply stdout_only_emit; by split.
Qed.

Lemma apply_exclusions_stdout_only parser x :
  stdout_only x (apply_exclusions parser x).2.
Proof.
  unfold apply_exclusions.
  destruct (_files x) as [|f files].
  { apply stdout_only_emit; by split. }
  destruct (strip_header_rules (GetIgnoredPaths parser)) as [ignored warn].
  set (x1 := if warn then emit_all header_warning x else x).
  assert (Hx1 : stdout_only x x1).
  { subst x1. destruct warn; [|apply stdout_only_refl].
    eapply stdout_only_trans; apply stdout_only_emit; by split. }
  cbv zeta.
  set (x2 := set_files _ x1).
  assert (Hx2 : stdout_only x x2).
  { eapply stdout_only_trans; [exact Hx1|].
    split; [done|]. exists []. by rewrite app_nil_r. }
  destruct (_files x2); simpl; [|done].
  eapply stdout_only_trans; [exact Hx2|]. apply stdout_only_emit; by split.
Qed.

Lemma parseFromArgs_stdout_only parser settings e x :
  stdout_only x (parseFromArgs parser settings e x).2.
Proof.
  unfold parseFromArgs.
  destruct (ParseFromArgs parser); [|apply stdout_only_refl].
  pose proof (print_version_and_errorlist_stdout_only parser settings e x) as Hv.
  destruct (print_version_and_errorlist parser settings e x) as [e1 x1].
  simpl in Hv.
  destruct (ExitAfterPrinting parser); [done|].
  pose proof (check_includePaths_stdout_only (_errorsOnly settings)
                (_includePaths settings) x1) as Hi.
  destruct (check_includePaths _ _ x1) as [kept x2]. simpl in Hi.
  set (x3 := set_files _ x2).
  pose proof (apply_exclusions_stdout_only parser x3) as Ha.
  destruct (apply_exclusions parser x3) as [ok x4]. simpl in *.
  eapply stdout_only_trans; [exact Hv|].
  eapply stdout_only_trans; [exact Hi|].
  eapply stdout_only_trans; [|exact Ha].
  split; [done|]. exists []. by rewrite app_nil_r.
Qed.

End PreparerMore.

(** X1. The loop over the include paths keeps, in order, exactly the paths
    that are directories once converted to native separators; it writes one
    warning for each other path, in order, unless the run is quiet; and it
    touches neither the file set nor the SeenSet. *)
Theorem includePaths_checked `{PathServices} (errorsOnly : bool)
    (paths : list string) (x : CppCheckExecutor) :
  let r := check_includePaths errorsOnly paths x in
  let missing :=
    List.filter (fun p => negb (isDirectory (toNativeSeparators p))) paths in
  r.1 = List.filter (fun p => isDirectory (toNativeSeparators p)) paths
  ∧ trace r.2
    = trace x
      ++ (if errorsOnly then []
          else map (fun p => Cout (String.append
                        "cppcheck: warning: Couldn't find path given by -I '"
                        (String.append (toNativeSeparators p) "'"))) missing)
  ∧ _files r.2 = _files x
  ∧ _errorList r.2 = _errorList x.
Proof.
  revert x. induction paths as [|p paths IH]; intros x; simpl.
  - destruct errorsOnly; simpl; by rewrite app_nil_r.
  - destruct (isDirectory (toNativeSeparators p)) eqn:Hdir; simpl.
    + specialize (IH x). simpl in IH.
      destruct (check_includePaths errorsOnly paths x) as [kept x'].
      simpl in *. destruct IH as (-> & -> & -> & ->). done.
    + set (x1 := if negb errorsOnly then _ else x).
      specialize (IH x1). simpl in IH.
      destruct (check_includePaths errorsOnly paths x1) as [kept x'].
      simpl in *. destruct IH as (-> & -> & -> & ->).
      subst x1. destruct errorsOnly; simpl; [done|].
      by rewrite <- app_assoc.
Qed.

(** X2. On a file set that is not empty, the exclusion leaves exactly the
    files that no ignored path matches, in their order; it succeeds exactly
    when a file is left. *)
Theorem exclusion_keeps_unmatched `{Platform} `{PathServices}
    (parser : CmdLineParser) (x : CppCheckExecutor) :
  _files x ≠ [] ->
  let r := apply_exclusions parser x in
  (∀ f, f ∈ _files r.2 ↔ f ∈ _files x ∧ ¬ excluded (GetIgnoredPaths parser) (fst f))
  ∧ (∃ keep, _files r.2 = List.filter keep (_files x))
  ∧ (r.1 = true ↔ _files r.2 ≠ []).
Proof.
  intros Hne r. subst r. unfold apply_exclusions.
  destruct (_files x) as [|f0 files] eqn:Hfiles; [done|].
  destruct (strip_header_rules (GetIgnoredPaths parser)) as [ignored warn].
  set (x1 := if warn then emit_all header_warning x else x).
  assert (Hx1 : _files x1 = f0 :: files) by (subst x1; by destruct warn).
  cbv zeta. rewrite Hx1. simpl.
  assert (Hmem : ∀ f, f ∈ erase_matching (GetIgnoredPaths parser) (f0 :: files)
                      ↔ f ∈ f0 :: files ∧ ¬ excluded (GetIgnoredPaths parser) (fst f)).
  { intros f. unfold erase_matching, PathMatch_Match, excluded.
    rewrite !list_elem_of_In, filter_In, <- list_elem_of_In.
    rewrite negb_true_iff, <- not_true_iff_false, existsb_exists.
    split; intros [Hin Hno]; (split; [done|]); intros (mask & Hmask & Hm);
      apply Hno; exists mask; by rewrite ?list_elem_of_In in *. }
  destruct (erase_matching (GetIgnoredPaths parser) (f0 :: files))
    as [|g remaining] eqn:Hleft; simpl.
  - split; [done|]. split; [|done].
    exists (fun f => negb (PathMatch_Match (GetIgnoredPaths parser) caseSensitive (fst f))).
    by rewrite <- Hleft.
  - split; [done|]. split; [|done].
    exists (fun f => negb (PathMatch_Match (GetIgnoredPaths parser) caseSensitive (fst f))).
    by rewrite <- Hleft.
Qed.

Lemma exclusion_keeps_unmatched_witness :
  map fst (_files (@apply_exclusions Sample.platform_linux Sample.paths
                     (Sample.parser [] ["b.c"; "test/"])
                     (Sample.executor [("a.c", 1%N); ("b.c", 2%N); ("lib/b.c", 3%N)])).2)
  = ["a.c"]
  ∧ ∃ keep,
      _files (@apply_exclusions Sample.platform_linux Sample.paths
                (Sample.parser [] ["b.c"; "test/"])
                (Sample.executor [("a.c", 1%N); ("b.c", 2%N); ("lib/b.c", 3%N)])).2
      = List.filter keep [("a.c", 1%N); ("b.c", 2%N); ("lib/b.c", 3%N)].
Proof.
  split; [reflexivity|].
  apply (exclusion_keeps_unmatched (H := Sample.platform_linux) (H0 := Sample.paths)
           (Sample.parser [] ["b.c"; "test/"])
           (Sample.executor [("a.c", 1%N); ("b.c", 2%N); ("lib/b.c", 3%N)])).
  simpl. discriminate.
Defined.

(** X3. What the exclusion step writes: the two-line warning about headers
    exactly when some ignored path has the extension [.h] or [.hpp] (once,
    however many there are), and then the error about all paths being
    ignored exactly when no file is left.  On an empty file set it writes
    the error about the paths not being found, and nothing else. *)
Theorem exclusion_messages `{Platform} `{PathServices}
    (parser : CmdLineParser) (x : CppCheckExecutor) :
  let r := apply_exclusions parser x in
  let header_rule :=
    existsb (fun i => is_header_extension (getFilenameExtension i))
            (GetIgnoredPaths parser) in
  trace r.2
  = trace x
    ++ match _files x with
       | [] => [Cout "cppcheck: error: could not find or open any of the paths given."]
       | _ :: _ =>
           (if header_rule then header_warning else [])
           ++ (if r.1 then []
               else [Cout "cppcheck: error: no files to check - all paths ignored."])
       end.
Proof.
  unfold apply_exclusions.
  destruct (_files x) as [|f0 files] eqn:Hfiles; [done|].
  rewrite strip_header_rules_spec.
  destruct (existsb _ (GetIgnoredPaths parser)); cbv zeta; simpl; rewrite Hfiles;
    destruct (erase_matching (GetIgnoredPaths parser) (f0 :: files)); simpl;
    by rewrite <- ?app_assoc, ?app_nil_r.
Qed.

(** X4. When [parseFromArgs] reports success without asking to terminate,
    the file set it leaves is not empty. *)
Theorem parseFromArgs_success_has_files `{Renderer} `{LongDouble} `{Engine}
    `{Platform} `{PathServices} (parser : CmdLineParser) (settings : Settings)
    (e : engine) (x : CppCheckExecutor) :
  let r := parseFromArgs parser settings e x in
  r.1.1.1 = true ->
  terminated r.1.1.2 = false ->
  _files r.2 ≠ [].
Proof.
  unfold parseFromArgs.
  destruct (ParseFromArgs parser); [|done].
  destruct (print_version_and_errorlist parser settings e x) as [e1 x1].
  destruct (ExitAfterPrinting parser); [done|].
  destruct (check_includePaths _ _ x1) as [kept x2].
  set (x3 := set_files _ x2).
  unfold apply_exclusions.
  destruct (_files x3) as [|f0 files]; [done|].
  destruct (strip_header_rules (GetIgnoredPaths parser)) as [ignored warn].
  cbv zeta. simpl.
  destruct (erase_matching (GetIgnoredPaths parser) _); simpl; done.
Qed.

Lemma parseFromArgs_success_has_files_witness :
  _files (@parseFromArgs Sample.renderer Sample.exact_arithmetic
            (Sample.the_engine true) Sample.platform_linux Sample.paths
            (Sample.parser ["b.c"; "a.c"] ["b.c"]) (Sample.settings false 1 0)
            tt new_executor).2 ≠ [].
Proof.
  apply (parseFromArgs_success_has_files (H := Sample.renderer)
           (H0 := Sample.exact_arithmetic) (H1 := Sample.the_engine true)
           (H2 := Sample.platform_linux) (H3 := Sample.paths)
           (Sample.parser ["b.c"; "a.c"] ["b.c"]) (Sample.settings false 1 0)
           tt new_executor); reflexivity.
Defined.

(** X5. [parseFromArgs] writes to standard output only: whatever the
    command line, the error stream and the SeenSet are as before and no
    call into the engine for analysis is made, the listing of [--errorlist]
    included. *)
Theorem parseFromArgs_only_standard_output `{Renderer} `{LongDouble} `{Engine}
    `{Platform} `{PathServices} (parser : CmdLineParser) (settings : Settings)
    (e : engine) (x : CppCheckExecutor) :
  let r := parseFromArgs parser settings e x in
  cerr_lines (trace r.2) = cerr_lines (trace x)
  ∧ _errorList r.2 = _errorList x
  ∧ engine_calls (trace r.2) = engine_calls (trace x).
Proof.
  intros r.
  pose proof (parseFromArgs_stdout_only parser settings e x) as Hs.
  destruct (stdout_only_silent _ _ Hs) as [Hc He].
  destruct Hs as [Hel _]. done.
Qed.

(** X6. [check] stops before the dispatcher when [parseFromArgs] fails
    (exit status [EXIT_FAILURE]) or asks to terminate (exit status
    [EXIT_SUCCESS]): no file is analysed and nothing is written to the
    error stream. *)
Theorem check_stops_after_parseFromArgs `{Renderer} `{LongDouble} `{Engine}
    `{Platform} `{PathServices} (parser : CmdLineParser) (settings : Settings)
    (now : Z) (e : engine) (x : CppCheckExecutor) :
  let p := parseFromArgs parser settings e x in
  let run := check parser settings now e x in
  p.1.1.1 = false ∨ terminated p.1.1.2 = true ->
  run.1.1 = (if p.1.1.1 then EXIT_SUCCESS else EXIT_FAILURE)
  ∧ run.2 = p.2
  ∧ engine_calls (trace run.2) = engine_calls (trace x)
  ∧ cerr_lines (trace run.2) = cerr_lines (trace x).
Proof.
  intros p run Hstop.
  pose proof (parseFromArgs_stdout_only parser settings e x) as Hs.
  apply stdout_only_silent in Hs as [Hc He]. fold p in Hc, He.
  assert (Hrun : run.1.1 = (if p.1.1.1 then EXIT_SUCCESS else EXIT_FAILURE)
                 ∧ run.2 = p.2).
  { subst run. unfold check. fold p.
    destruct p as [[[ok settings'] e1] x1]. simpl in *.
    destruct ok; simpl; [|done].
    destruct Hstop as [Hf|Ht]; [done|]. by rewrite Ht. }
  destruct Hrun as [Hstatus Hx]. rewrite Hx. done.
Qed.

Lemma check_stops_after_parseFromArgs_witness :
  let run := @check Sample.renderer Sample.exact_arithmetic (Sample.the_engine true)
               Sample.platform_linux Sample.paths
               (Sample.parser ["a.c"] ["a.c"]) (Sample.settings false 1 0)
               0 tt new_executor in
  run.1.1 = EXIT_FAILURE ∧ engine_calls (trace run.2) = [].
Proof.
  split; [reflexivity|].
  apply (check_stops_after_parseFromArgs (H := Sample.renderer)
           (H0 := Sample.exact_arithmetic) (H1 := Sample.the_engine true)
           (H2 := Sample.platform_linux) (H3 := Sample.paths)
           (Sample.parser ["a.c"] ["a.c"]) (Sample.settings false 1 0)
           0 tt new_executor).
  left. reflexivity.
Defined.

(** X7. In [--errorlist] mode every diagnostic reported is written to
    standard output in its XML form, repeated ones too; the error stream
    and the SeenSet are not used. *)
Theorem errorlist_mode_lists_everything `{Renderer} `{LongDouble}
    (settings : Settings) (msgs : list ErrorMessage) (x : CppCheckExecutor) :
  errorlist x = true ->
  let x' := deliver_all settings (map call_reportErr msgs) x in
  trace x'
  = trace x ++ map (fun m => Cout (toXML m false (_xml_version settings))) msgs
  ∧ _errorList x' = _errorList x
  ∧ errorlist x' = true.
Proof.
  revert x. induction msgs as [|m msgs IH]; intros x Hel; simpl.
  - by rewrite app_nil_r.
  - change (deliver_all settings (call_reportErr m :: map call_reportErr msgs) x)
      with (deliver_all settings (map call_reportErr msgs)
              (reportErr settings m x)).
    assert (Hout : reportErr settings m x
                   = reportOut (toXML m false (_xml_version settings)) x).
    { unfold reportErr. by rewrite Hel. }
    rewrite Hout.
    destruct (IH (reportOut (toXML m false (_xml_version settings)) x) Hel)
      as (-> & -> & ->).
    simpl. by rewrite <- app_assoc.
Qed.

Lemma errorlist_mode_lists_everything_witness :
  cout_lines (trace (@deliver_all Sample.renderer Sample.exact_arithmetic
                       (Sample.settings false 1 0)
                       (map call_reportErr [Sample.nullPointer "a.c" 1;
                                            Sample.nullPointer "a.c" 1])
                       (set_errorlist true new_executor)))
  = [ "<error id=nullPointer msg=Null pointer dereference at=[a.c:1]/>";
      "<error id=nullPointer msg=Null pointer dereference at=[a.c:1]/>" ]
  ∧ _errorList (@deliver_all Sample.renderer Sample.exact_arithmetic
                  (Sample.settings false 1 0)
                  (map call_reportErr [Sample.nullPointer "a.c" 1;
                                       Sample.nullPointer "a.c" 1])
                  (set_errorlist true new_executor)) = ∅.
Proof.
  split; [reflexivity|].
  apply (errorlist_mode_lists_everything (H := Sample.renderer)
           (H0 := Sample.exact_arithmetic) (Sample.settings false 1 0)
           [Sample.nullPointer "a.c" 1; Sample.nullPointer "a.c" 1]
           (set_errorlist true new_executor) eq_refl).
Defined.

(** ** Progress messages *)

Section ProgressFacts.
Context `{Renderer} `{LongDouble}.

(** Calls that come less than ten seconds after the last message, or while
    [time1] is zero, change nothing. *)
Lemma progress_too_early settings cbs x :
  Forall (fun cb => is_progress cb ∧ (time1 x = 0 ∨ progress_before (time1 x + 10) cb)) cbs ->
  deliver_all settings cbs x = x.
Proof.
  induction 1 as [|cb cbs [Hp Hcb] _ IH]; [done|].
  change (deliver_all settings (cb :: cbs) x)
    with (deliver_all settings cbs (deliver settings cb x)).
  assert (Hsame : deliver settings cb x = x).
  { destruct cb; try done. simpl. unfold reportProgress.
    destruct (time1 x =? 0) eqn:Hz; [done|].
    destruct Hcb as [Hzero|Hearly]; [by rewrite Hzero in Hz|].
    simpl in Hearly.
    destruct (time1 x + 10 <=? time2) eqn:Hle; [|done].
    apply Z.leb_le in Hle. lia. }
  by rewrite Hsame.
Qed.

End ProgressFacts.

(** X8. While [time1] is zero, as the constructor leaves it and as it stays
    unless the run enables progress reports, [reportProgress] writes nothing
    and changes nothing, however often it is called. *)
Theorem reportProgress_off `{Renderer} `{LongDouble} (settings : Settings)
    (cbs : list callback) (x : CppCheckExecutor) :
  time1 x = 0 ->
  Forall is_progress cbs ->
  deliver_all settings cbs x = x.
Proof.
  intros Hzero Hall. apply progress_too_early.
  eapply Forall_impl; [exact Hall|]. intros cb Hcb. split; [done|by left].
Qed.

Lemma reportProgress_off_witness :
  @deliver_all Sample.renderer Sample.exact_arithmetic (Sample.settings false 1 0)
    [call_reportProgress "a.c" "tokenize" 10 1000;
     call_reportProgress "a.c" "tokenize" 90 2000] new_executor
  = new_executor.
Proof.
  apply (reportProgress_off (H := Sample.renderer) (H0 := Sample.exact_arithmetic)
           (Sample.settings false 1 0)
           [call_reportProgress "a.c" "tokenize" 10 1000;
            call_reportProgress "a.c" "tokenize" 90 2000] new_executor).
  - reflexivity.
  - repeat constructor.
Defined.

(** X9. Progress messages are at least ten seconds apart: of any number of
    calls of [reportProgress] made within one span of less than ten
    seconds, at most one writes a message. *)
Theorem reportProgress_once_in_ten_seconds `{Renderer} `{LongDouble}
    (settings : Settings) (start : Z) (cbs : list callback) (x : CppCheckExecutor) :
  Forall (progress_within start) cbs ->
  (length (trace (deliver_all settings cbs x)) <= length (trace x) + 1)%nat.
Proof.
  intros Hwithin. revert x.
  induction Hwithin as [|cb cbs Hcb Hall IH]; intros x; [simpl; lia|].
  change (deliver_all settings (cb :: cbs) x)
    with (deliver_all settings cbs (deliver settings cb x)).
  destruct cb; try done. simpl in Hcb. simpl deliver. unfold reportProgress.
  destruct (time1 x =? 0); [apply IH|].
  destruct (time1 x + 10 <=? time2); [|apply IH].
  rewrite progress_too_early.
  - simpl. rewrite length_app. simpl. lia.
  - eapply Forall_impl; [exact Hall|]. intros cb Hw.
    destruct cb; try done. simpl in *. split; [done|]. right. lia.
Qed.

Lemma reportProgress_once_in_ten_seconds_witness :
  cout_lines (trace (@deliver_all Sample.renderer Sample.exact_arithmetic
                       (Sample.settings false 1 0)
                       [call_reportProgress "a.c" "tokenize" 10 1000;
                        call_reportProgress "a.c" "tokenize" 50 1004;
                        call_reportProgress "a.c" "tokenize" 90 1009]
                       (set_time1 985 new_executor)))
  = ["progress: tokenize 10%"]
  ∧ (length (trace (@deliver_all Sample.renderer Sample.exact_arithmetic
                      (Sample.settings false 1 0)
                      [call_reportProgress "a.c" "tokenize" 10 1000;
                       call_reportProgress "a.c" "tokenize" 50 1004;
                       call_reportProgress "a.c" "tokenize" 90 1009]
                      (set_time1 985 new_executor)))
     <= length (trace (set_time1 985 new_executor)) + 1)%nat.
Proof.
  split; [reflexivity|].
  apply (reportProgress_once_in_ten_seconds (H := Sample.renderer)
           (H0 := Sample.exact_arithmetic) (Sample.settings false 1 0) 1000).
  repeat constructor; simpl; lia.
Defined.

(** ** More on the dispatcher *)

Section AccountingFacts.
Context `{Renderer} `{LongDouble} `{Engine} `{Platform}.

Lemma totalfilesize_of_sum files :
  totalfilesize_of files = (sizes_sum files mod SIZE_MODULUS)%N.
Proof.
  unfold totalfilesize_of.
  assert (Hgen : ∀ acc total,
            acc = (total mod SIZE_MODULUS)%N ->
            fold_left (fun acc f => ((acc + snd f) mod SIZE_MODULUS)%N) files acc
            = ((total + sizes_sum files) mod SIZE_MODULUS)%N).
  { induction files as [|f files IH]; intros acc total ->; simpl.
    - by rewrite N.add_0_r.
    - rewrite (IH _ (total + snd f)%N).
      + f_equal. lia.
      + by rewrite N.Div0.add_mod_idemp_l. }
  by rewrite (Hgen 0%N 0%N).
Qed.

Lemma check_file_accounting settings filecount totalfilesize f st :
  processedsize (check_file settings filecount totalfilesize f st)
  = ((processedsize st + snd f) mod SIZE_MODULUS)%N
  ∧ c (check_file settings filecount totalfilesize f st) = uint_add (c st) 1.
Proof.
  unfold check_file. by destruct (cppcheck_check (fst f) (eng st)) as [[cbs found] e'].
Qed.

Lemma check_loop_accounting settings sel filecount totalfilesize files st
    (done_size : N) (done_files : Z) :
  processedsize st = (done_size mod SIZE_MODULUS)%N ->
  c st = done_files mod UINT_MODULUS ->
  let selected := List.filter (fun f => sel (fst f)) files in
  let st' := check_loop settings sel filecount totalfilesize files st in
  processedsize st' = ((done_size + sizes_sum selected) mod SIZE_MODULUS)%N
  ∧ c st' = (done_files + Z.of_nat (length selected)) mod UINT_MODULUS.
Proof.
  revert st done_size done_files.
  induction files as [|f files IH]; intros st done_size done_files Hp Hc; simpl.
  - by rewrite N.add_0_r, Z.add_0_r.
  - destruct (sel (fst f)); [|by apply IH].
    destruct (check_file_accounting settings filecount totalfilesize f st) as [Hp' Hc'].
    destruct (IH (check_file settings filecount totalfilesize f st)
                 (done_size + snd f)%N (done_files + 1)) as [-> ->].
    + by rewrite Hp', Hp, N.Div0.add_mod_idemp_l.
    + rewrite Hc', Hc. unfold uint_add. by rewrite Zplus_mod_idemp_l.
    + simpl. split; f_equal; lia.
Qed.

Lemma passes_sizes settings (files : list (string * N)) :
  (sizes_sum (List.filter (fun f => first_pass settings (fst f)) files)
   + sizes_sum (List.filter (fun f => second_pass settings (fst f)) files))%N
  = sizes_sum files
  ∧ (length (List.filter (fun f => first_pass settings (fst f)) files)
     + length (List.filter (fun f => second_pass settings (fst f)) files))%nat
    = length files.
Proof.
  induction files as [|f files [IH1 IH2]]; simpl; [done|].
  unfold first_pass, second_pass in *.
  destruct (markupFile settings (fst f)), (processMarkupAfterCode settings (fst f));
    simpl; split; lia.
Qed.

Lemma run_checks_reaches settings now e x :
  reaches (fun t => rendered settings t
                    ∨ (_xml settings = true
                       ∧ (t = getXMLHeader (_xml_version settings)
                          ∨ t = getXMLFooter (_xml_version settings))))
          any_event x (exec (run_checks settings now e x)).
Proof.
  unfold run_checks.
  set (x2 := before_dispatch settings now x).
  set (st := after_dispatch settings (dispatch settings e x2)).
  assert (Hx2 : reaches (fun t => rendered settings t
                    ∨ (_xml settings = true
                       ∧ (t = getXMLHeader (_xml_version settings)
                          ∨ t = getXMLFooter (_xml_version settings))))
                  any_event x x2).
  { subst x2. unfold before_dispatch.
    set (x1 := if reportProgress_enabled settings then set_time1 now x else x).
    assert (Hx1 : reaches (fun t => rendered settings t
                    ∨ (_xml settings = true
                       ∧ (t = getXMLHeader (_xml_version settings)
                          ∨ t = getXMLFooter (_xml_version settings))))
                    any_event x x1).
    { subst x1. destruct (reportProgress_enabled settings); repeat constructor. }
    destruct (_xml settings); [|done].
    apply reaches_err; [done|]. right. split; [done|by left]. }
  assert (Hst : reaches (fun t => rendered settings t
                    ∨ (_xml settings = true
                       ∧ (t = getXMLHeader (_xml_version settings)
                          ∨ t = getXMLFooter (_xml_version settings))))
                  any_event x (exec st)).
  { eapply reaches_trans; [exact Hx2|].
    eapply reaches_weaken with (Q := rendered settings) (E := any_event);
      [by left|done|].
    eapply reaches_trans; [apply dispatch_reaches | apply after_dispatch_reaches]. }
  destruct (_xml settings); [|done]. simpl.
  apply reaches_err; [done|]. right. split; [done|by right].
Qed.

Lemma check_internal_reaches settings now e x :
  reaches (fun t => rendered settings t
                    ∨ (_xml settings = true
                       ∧ (t = getXMLHeader (_xml_version settings)
                          ∨ t = getXMLFooter (_xml_version settings))))
          any_event x (check_internal settings now e x).2.
Proof.
  unfold check_internal.
  destruct (load_configuration settings e) as [[std posix] e1].
  destruct (negb std || negb posix); simpl.
  - eapply reaches_weaken with (Q := rendered settings) (E := is_cout);
      [by left|done|]. apply reportErr_reaches.
  - apply run_checks_reaches.
Qed.

End AccountingFacts.

(** X10. After the two loops of the sequential mode every file has been
    counted once: [processedsize] equals [totalfilesize], and the counter of
    the status lines equals the number of files (both as the unsigned types
    hold them). *)
Theorem sequential_accounting_is_complete `{Renderer} `{LongDouble} `{Engine}
    `{Platform} (settings : Settings) (e : engine) (x : CppCheckExecutor) :
  _jobs settings = 1 ->
  let st := dispatch settings e x in
  processedsize st = totalfilesize_of (_files x)
  ∧ c st = Z.of_nat (length (_files x)) mod UINT_MODULUS.
Proof.
  intros Hjobs st. subst st. unfold dispatch. rewrite Hjobs. simpl.
  set (st0 := {| returnValue := 0; processedsize := 0%N; c := 0; eng := e; exec := x |}).
  set (n := N.of_nat (length (_files x))).
  set (total := totalfilesize_of (_files x)).
  destruct (check_loop_accounting settings (first_pass settings) n total
              (_files x) st0 0%N 0 eq_refl eq_refl) as [Hp1 Hc1].
  destruct (check_loop_accounting settings (second_pass settings) n total (_files x)
              (check_loop settings (first_pass settings) n total (_files x) st0)
              _ _ Hp1 Hc1) as [Hp2 Hc2].
  destruct (cppcheck_checkFunctionUsage _) as [cbs e']. simpl.
  destruct (passes_sizes settings (_files x)) as [Hsizes Hlen].
  rewrite Hp2, Hc2. subst total. rewrite totalfilesize_of_sum.
  split; f_equal; lia.
Qed.

Lemma sequential_accounting_is_complete_witness :
  let st := @dispatch Sample.renderer Sample.exact_arithmetic (Sample.the_engine true)
              Sample.platform_linux (Sample.settings false 1 0) tt
              (Sample.executor [("a.c", 100%N); ("m.qml", 30%N); ("z.c", 70%N)]) in
  processedsize st = 200%N ∧ c st = 3.
Proof.
  apply (sequential_accounting_is_complete (H := Sample.renderer)
           (H0 := Sample.exact_arithmetic) (H1 := Sample.the_engine true)
           (H2 := Sample.platform_linux) (Sample.settings false 1 0) tt
           (Sample.executor [("a.c", 100%N); ("m.qml", 30%N); ("z.c", 70%N)])).
  reflexivity.
Defined.

(** X11. With a worker count other than one and the parallel executor
    enabled, the dispatcher hands the whole file set to the executor, once;
    it analyses no file itself, does not run [checkFunctionUsage], and takes
    the count that the executor returns as its own. *)
Theorem parallel_dispatch_delegates `{Renderer} `{LongDouble} `{Engine} `{Platform}
    (settings : Settings) (e : engine) (x : CppCheckExecutor) :
  _jobs settings ≠ 1 ->
  ThreadExecutor_isEnabled = true ->
  let st := dispatch settings e x in
  let r := ThreadExecutor_check (_files x) e in
  engine_calls (trace (exec st)) = engine_calls (trace x) ++ [CallRunAll]
  ∧ returnValue st = r.1.2 mod UINT_MODULUS
  ∧ eng st = r.2
  ∧ exec st = deliver_all settings r.1.1 (emit (RunAll r.1.2) x).
Proof.
  intros Hjobs Hen st r. subst st r. unfold dispatch.
  apply Z.eqb_neq in Hjobs. rewrite Hjobs, Hen. simpl.
  destruct (ThreadExecutor_check (_files x) e) as [[cbs found] e']. simpl.
  split; [|done].
  destruct (reaches_cout_engine _ _ _
              (deliver_all_reaches settings cbs (emit (RunAll found) x))) as [-> _].
  simpl. by rewrite engine_calls_app.
Qed.

Lemma parallel_dispatch_delegates_witness :
  engine_calls (trace (exec
    (@dispatch Sample.renderer Sample.exact_arithmetic (Sample.the_engine true)
       (Sample.platform true) (Sample.settings false 4 0) tt
       (Sample.executor [("a.c", 100%N); ("b.c", 50%N)]))))
  = [CallRunAll].
Proof.
  apply (parallel_dispatch_delegates (H := Sample.renderer)
           (H0 := Sample.exact_arithmetic) (H1 := Sample.the_engine true)
           (H2 := Sample.platform true) (Sample.settings false 4 0) tt
           (Sample.executor [("a.c", 100%N); ("b.c", 50%N)])).
  - discriminate.
  - reflexivity.
Defined.

(** X12. When [std.cfg], or [posix.cfg] where it is required, cannot be
    loaded, [check_internal] makes no call into the engine, reports the one
    message [failedToLoadCfg], which names [std.cfg] if that one failed and
    [posix.cfg] otherwise, and returns [EXIT_FAILURE]. *)
Theorem failed_configuration_stops_the_run `{Renderer} `{LongDouble} `{Engine}
    `{Platform} (settings : Settings) (now : Z) (e : engine)
    (x : CppCheckExecutor) :
  let cfg := load_configuration settings e in
  let run := check_internal settings now e x in
  cfg.1.1 && cfg.1.2 = false ->
  run.1.1 = EXIT_FAILURE
  ∧ run.2 = reportErr settings (failedToLoadCfg cfg.1.1) x
  ∧ engine_calls (trace run.2) = engine_calls (trace x)
  ∧ _id (failedToLoadCfg cfg.1.1) = "failedToLoadCfg"
  ∧ String.prefix (if cfg.1.1 then "Failed to load posix.cfg."
                   else "Failed to load std.cfg.")
                  (_msg (failedToLoadCfg cfg.1.1)) = true.
Proof.
  intros cfg run Hfail. subst run. unfold check_internal. subst cfg.
  destruct (load_configuration settings e) as [[std posix] e1]. simpl in *.
  assert (Hor : negb std || negb posix = true) by (destruct std, posix; done).
  rewrite Hor. simpl.
  split; [done|]. split; [done|]. split.
  { by destruct (reaches_cout_engine _ _ _
                   (reportErr_reaches settings (failedToLoadCfg std) x)) as [-> _]. }
  split; [done|]. by destruct std.
Qed.

Lemma failed_configuration_stops_the_run_witness :
  let run := @check_internal Sample.renderer Sample.exact_arithmetic
               (Sample.the_engine false) Sample.platform_linux
               (Sample.settings false 1 0) 0 tt
               (Sample.executor [("a.c", 100%N)]) in
  run.1.1 = 1 ∧ engine_calls (trace run.2) = [].
Proof.
  split; [reflexivity|].
  apply (failed_configuration_stops_the_run (H := Sample.renderer)
           (H0 := Sample.exact_arithmetic) (H1 := Sample.the_engine false)
           (H2 := Sample.platform_linux) (Sample.settings false 1 0) 0 tt
           (Sample.executor [("a.c", 100%N)])).
  reflexivity.
Defined.

(** X13. [check_internal] never changes the file set or the [--errorlist]
    flag; it only adds to the history of the run; and what it adds to the
    error stream is rendered diagnostics and, in structured mode only, the
    header and the footer. *)
Theorem check_internal_frame `{Renderer} `{LongDouble} `{Engine} `{Platform}
    (settings : Settings) (now : Z) (e : engine) (x : CppCheckExecutor) :
  let run := check_internal settings now e x in
  _files run.2 = _files x
  ∧ errorlist run.2 = errorlist x
  ∧ ∃ tr, trace run.2 = trace x ++ tr
          ∧ Forall (fun t => rendered settings t
                             ∨ (_xml settings = true
                                ∧ (t = getXMLHeader (_xml_version settings)
                                   ∨ t = getXMLFooter (_xml_version settings))))
                   (cerr_lines tr).
Proof.
  intros run. pose proof (check_internal_reaches settings now e x) as Hr.
  fold run in Hr.
  split; [by eapply reaches_files|]. split; [by eapply reaches_errorlist|].
  destruct (reaches_trace _ _ _ _ Hr) as [tr [Htr Hall]].
  exists tr. split; [done|]. by eapply cerr_lines_Forall.
Qed.

(** X14. Over a whole run of [check_internal], header, diagnostics of the
    engine, messages of the driver and footer together, no text is written
    to the error stream twice, and the SeenSet holds exactly the texts
    written. *)
Theorem check_internal_never_repeats `{Renderer} `{LongDouble} `{Engine} `{Platform}
    (settings : Settings) (now : Z) (e : engine) (x : CppCheckExecutor) :
  sink_consistent x ->
  let run := check_internal settings now e x in
  NoDup (cerr_lines (trace run.2))
  ∧ ∀ t, t ∈ _errorList run.2 ↔ t ∈ cerr_lines (trace run.2).
Proof.
  intros Hx run.
  exact (reaches_consistent _ _ _ _ (check_internal_reaches settings now e x) Hx).
Qed.

Lemma check_internal_never_repeats_witness :
  NoDup (cerr_lines (trace
    (@check_internal Sample.renderer Sample.exact_arithmetic (Sample.the_engine true)
       Sample.platform_linux (Sample.settings true 1 0) 0 tt
       (Sample.executor [("a.c", 100%N); ("b.c", 50%N)])).2)).
Proof.
  apply (check_internal_never_repeats (H := Sample.renderer)
           (H0 := Sample.exact_arithmetic) (H1 := Sample.the_engine true)
           (H2 := Sample.platform_linux) (Sample.settings true 1 0) 0 tt
           (Sample.executor [("a.c", 100%N); ("b.c", 50%N)])
           new_executor_consistent).
Defined.

(** ** More on the fault handler *)

Lemma switch_found {A : Type} (v : Z) (cases : list (Z * A)) (default a : A) :
  NoDup (map fst cases) -> (v, a) ∈ cases -> switch v cases default = a.
Proof.
  induction cases as [|[label body] cases IH]; intros Hnd Hin; simpl.
  - by apply not_elem_of_nil in Hin.
  - simpl in Hnd. apply NoDup_cons in Hnd as [Hfresh Hnd].
    apply elem_of_cons in Hin as [[= <- <-]|Hin].
    + by rewrite Z.eqb_refl.
    + destruct (v =? label) eqn:Heq; [|by apply IH].
      apply Z.eqb_eq in Heq. subst label. destruct Hfresh.
      apply list_elem_of_In, in_map_iff. exists (v, a).
      split; [done|by apply list_elem_of_In].
Qed.

Lemma switch_default {A : Type} (v : Z) (cases : list (Z * A)) (default : A) :
  v ∉ map fst cases -> switch v cases default = default.
Proof.
  induction cases as [|[label body] cases IH]; intros Hout; simpl; [done|].
  simpl in Hout. apply not_elem_of_cons in Hout as [Hne Hout].
  destruct (v =? label) eqn:Heq; [|by apply IH].
  by apply Z.eqb_eq in Heq.
Qed.

(** X15. Where the five signal numbers are distinct, [signal_name] gives
    each listed signal its name, and the empty string to every other
    number. *)
Theorem signal_name_lookup `{Runtime} (signo : Z) (name : string) :
  NoDup [SIGBUS; SIGFPE; SIGILL; SIGINT; SIGSEGV] ->
  ((signo, name) ∈ listofsignals -> signal_name signo = name)
  ∧ (signo ∉ [SIGBUS; SIGFPE; SIGILL; SIGINT; SIGSEGV] ->
     signal_name signo = EmptyString).
Proof.
  intros Hnd. split.
  - intros Hin. by apply switch_found.
  - intros Hout. by apply switch_default.
Qed.

Lemma signal_name_lookup_witness :
  @signal_name Sample.runtime 11 = "SIGSEGV"
  ∧ @signal_name Sample.runtime 15 = EmptyString.
Proof.
  assert (Hnd : NoDup [@SIGBUS Sample.runtime; @SIGFPE Sample.runtime;
                       @SIGILL Sample.runtime; @SIGINT Sample.runtime;
                       @SIGSEGV Sample.runtime]).
  { apply NoDup_ListNoDup. repeat constructor; simpl; intuition discriminate. }
  split.
  - apply (proj1 (signal_name_lookup (H := Sample.runtime) 11 "SIGSEGV" Hnd)).
    apply list_elem_of_In. simpl. auto 10.
  - apply (proj2 (signal_name_lookup (H := Sample.runtime) 15 "SIGSEGV" Hnd)).
    intros Hin. repeat (apply elem_of_cons in Hin as [Hin|Hin]; [discriminate|]).
    by apply not_elem_of_nil in Hin.
Defined.

(** X16. A user interrupt is reported tersely: the handler names the
    signal and writes nothing more, neither a fault address nor a call
    stack nor the request to report, whatever the build and the stack. *)
Theorem interrupt_report_is_terse `{Runtime} `{Platform} (predefined : macros)
    (exceptionOutput : string) (stack : list Z) (info : siginfo_t) :
  NoDup [SIGBUS; SIGFPE; SIGILL; SIGINT; SIGSEGV] ->
  (CppcheckSignalHandler predefined exceptionOutput stack SIGINT info).2
  = Some [ "Internal error: cppcheck received signal "; "SIGINT"; ", ";
           strsignal SIGINT; String.append "." newline ].
Proof.
  intros Hnd.
  assert (Hname : signal_name SIGINT = "SIGINT").
  { apply switch_found; [done|].
    apply list_elem_of_In. simpl. auto 10. }
  assert (Hdesc : describe_signal SIGINT info = ([String.append "." newline], false)).
  { unfold describe_signal. eapply switch_found.
    - exact Hnd.
    - apply list_elem_of_In. simpl. auto 10. }
  unfold CppcheckSignalHandler. by rewrite Hdesc, Hname.
Qed.

Lemma interrupt_report_is_terse_witness :
  (@CppcheckSignalHandler Sample.runtime Sample.platform_linux
     (fun name => Sample.gcc_linux name || String.eqb name "USE_UNIX_SIGNAL_SUPPORT")
     "stderr" [1; 2; 3; 4; 5] 2 {| si_code := 0; si_addr := 0 |}).2
  = Some [ "Internal error: cppcheck received signal "; "SIGINT"; ", ";
           "Interrupt"; String.append "." newline ].
Proof.
  apply (interrupt_report_is_terse (H := Sample.runtime) (H0 := Sample.platform_linux)).
  apply NoDup_ListNoDup. repeat constructor; simpl; intuition discriminate.
Defined.

(** *** A frame in the format of glibc *)











Section FrameFacts.
Context `{Runtime} `{Platform}.






End FrameFacts.





(** ** The file set is a map *)

(** X19. The file set that [parseFromArgs] leaves is a [std::map]: its
    paths are distinct and in ascending order, whatever the order in which
    the command line names them and whatever was excluded. *)
Theorem prepared_files_are_ordered `{Renderer} `{LongDouble} `{Engine} `{Platform}
    `{PathServices} (parser : CmdLineParser) (settings : Settings)
    (e : engine) (x : CppCheckExecutor) :
  map_ordered (_files x) ->
  let r := parseFromArgs parser settings e x in
  StronglySorted path_lt (keys (_files r.2)) ∧ NoDup (keys (_files r.2)).
Proof.
  intros Hm r.
  pose proof (parseFromArgs_files_ordered parser settings e x Hm) as Hr.
  split; [exact Hr|]. by apply map_ordered_NoDup.
Qed.

Lemma prepared_files_are_ordered_witness :
  keys (_files (@parseFromArgs Sample.renderer Sample.exact_arithmetic
                  (Sample.the_engine true) Sample.platform_linux Sample.paths
                  (Sample.parser ["z.c"; "a.c"; "m.c"; "a.c"] ["m.c"])
                  (Sample.settings false 1 0) tt new_executor).2)
  = ["a.c"; "z.c"]
  ∧ NoDup (keys (_files (@parseFromArgs Sample.renderer Sample.exact_arithmetic
                  (Sample.the_engine true) Sample.platform_linux Sample.paths
                  (Sample.parser ["z.c"; "a.c"; "m.c"; "a.c"] ["m.c"])
                  (Sample.settings false 1 0) tt new_executor).2)).
Proof.
  split; [reflexivity|].
  apply (prepared_files_are_ordered (H := Sample.renderer)
           (H0 := Sample.exact_arithmetic) (H1 := Sample.the_engine true)
           (H2 := Sample.platform_linux) (H3 := Sample.paths)
           (Sample.parser ["z.c"; "a.c"; "m.c"; "a.c"] ["m.c"])
           (Sample.settings false 1 0) tt new_executor).
  constructor.
Defined.

(** ** The note about missing include files *)

(** X20. Outside [--check-config] and [--errorlist], when the check
    [missingInclude] is enabled and one of the two flags of the preprocessor
    is set once the files are analysed, the note about missing include files
    is on the error stream when [check_internal] is done with lines 655-675;
    its id tells whether a user include or only a system include was
    missing. *)
Theorem missing_include_is_reported `{Renderer} `{LongDouble} `{Engine} `{Platform}
    (settings : Settings) (st : dispatch_state) :
  sink_consistent (exec st) ->
  errorlist (exec st) = false ->
  checkConfiguration settings = false ->
  isEnabled settings "missingInclude" = true ->
  let e' := (cppcheck_tooManyConfigsError (eng st)).2 in
  missingIncludeFlag e' || missingSystemIncludeFlag e' = true ->
  render settings (missingIncludeMessage e')
    ∈ cerr_lines (trace (exec (after_dispatch settings st)))
  ∧ _id (missingIncludeMessage e')
    = (if missingIncludeFlag e' then "missingInclude" else "missingIncludeSystem").
Proof.
  intros Hcons Hel Hcc Hen e' Hflag. split; [|done].
  pose proof (after_dispatch_reaches settings st) as Hr.
  pose proof (reaches_consistent _ _ _ _ Hr Hcons) as [_ Hiff].
  apply Hiff. clear Hiff Hr.
  unfold after_dispatch. rewrite Hcc, Hen. simpl.
  set (x1 := if isEnabled settings "information" || false then _ else exec st).
  assert (Hx1 : errorlist x1 = false).
  { rewrite <- Hel. subst x1.
    destruct (isEnabled settings "information" || false); [|done].
    eapply reaches_errorlist, reportErr_fold_reaches. }
  subst e'. destruct (cppcheck_tooManyConfigsError (eng st)) as [cbs e'].
  simpl in *. rewrite Hflag. simpl.
  unfold reportInfo. rewrite reportErr_render.
  - apply reportErr_string_records.
  - rewrite <- Hx1.
    eapply (reaches_errorlist _ _ (emit TooManyConfigs x1)), deliver_all_reaches.
Qed.

Lemma missing_include_is_reported_witness :
  let missing : Engine := {|
    engine := unit;
    cppcheck_version := "1.66";
    cppcheck_extraVersion := EmptyString;
    cppcheck_getErrorMessages := fun e => ([], e);
    library_load := fun _ e => (true, e);
    cppcheck_check := fun _ e => ([], 0, e);
    cppcheck_checkFunctionUsage := fun e => ([], e);
    cppcheck_tooManyConfigsError := fun e => ([], e);
    unmatchedGlobalSuppressions := fun _ => [];
    missingIncludeFlag := fun _ => false;
    missingSystemIncludeFlag := fun _ => true;
    ThreadExecutor_check := fun _ e => ([], 0, e) |} in
  let settings : Settings := {|
    _xml := false; _xml_version := 2; _jobs := 1; _errorsOnly := false;
    _exitCode := 0; _verbose := false; _outputFormat := EmptyString;
    reportProgress_enabled := false; checkConfiguration := false;
    exceptionHandling := false; standards_posix := false;
    isEnabled := fun id => String.eqb id "missingInclude";
    _includePaths := []; terminated := false;
    markupFile := fun _ => false; processMarkupAfterCode := fun _ => false;
    markupExtensions := [] |} in
  let st := @Build_dispatch_state missing 0 0%N 0 tt new_executor in
  @render Sample.renderer settings (@missingIncludeMessage missing tt)
    ∈ cerr_lines (trace (exec
         (@after_dispatch Sample.renderer Sample.exact_arithmetic missing settings st)))
  ∧ _id (@missingIncludeMessage missing tt) = "missingIncludeSystem".
Proof.
  intros missing settings st.
  apply (missing_include_is_reported (H := Sample.renderer)
           (H0 := Sample.exact_arithmetic) (H1 := missing)
           (H2 := Sample.platform_linux) settings st);
    try reflexivity.
  exact new_executor_consistent.
Defined.
